(** * PDFtoMarkdown: the layout-reconstruction core, embedded in Rocq

    A shallow embedding of the two classes that rebuild document structure
    from positioned text fragments:

    - [PDFProcessor]     (processTextItems, groupLinesIntoParagraphs,
                          identifyHeadings, identifyLists, identifyTables)
    - [StructureAnalyzer] (generateOutline, identifySections,
                          extractSectionContent, cleanHeadingText,
                          findCrossReferences, extractContext,
                          determineReadingOrder, calculateReadingOrder)

    JavaScript numbers are modelled by exact rationals extended with the
    non-numeric values the code can meet ([NaN], [undefined], [null]);
    strings are sequences of UTF-16 code units; regular expressions are
    terms of a small backtracking matcher with the greedy, leftmost
    semantics of the language. *)

From Stdlib Require Import List Bool Arith ZArith NArith QArith Qabs Lqa Lia.
From Stdlib Require Import Ascii String Permutation Sorted.
From stdpp Require Import list.
Import ListNotations.


(** ** Numbers *)

(** A value read from a numeric field.  [Undefined] is a missing field,
    [Null] the initial value of the loop variables [currentY]/[lastY]. *)
Inductive jsnum : Type :=
| Num (q : Q)
| NaN
| Undefined
| Null.

(** ToNumber: [null] is [0], [undefined] and [NaN] are not a number. *)
Definition toNumber (v : jsnum) : option Q :=
  match v with
  | Num q => Some q
  | Null => Some 0%Q
  | NaN | Undefined => None
  end.

Definition ofNumber (o : option Q) : jsnum :=
  match o with Some q => Num q | None => NaN end.

Definition lift2 (f : Q -> Q -> Q) (a b : jsnum) : jsnum :=
  match toNumber a, toNumber b with
  | Some p, Some q => Num (f p q)
  | _, _ => NaN
  end.

Definition num_add : jsnum -> jsnum -> jsnum := lift2 Qplus.
Definition num_sub : jsnum -> jsnum -> jsnum := lift2 Qminus.
Definition num_mul : jsnum -> jsnum -> jsnum := lift2 Qmult.

Definition Math_abs (a : jsnum) : jsnum :=
  match toNumber a with Some p => Num (Qabs p) | None => NaN end.

Definition Qlt_bool (p q : Q) : bool := negb (Qle_bool q p).

(** [a < b] and [a > b]: false as soon as one side is not a number. *)
Definition num_lt (a b : jsnum) : bool :=
  match toNumber a, toNumber b with
  | Some p, Some q => Qlt_bool p q
  | _, _ => false
  end.

Definition num_gt (a b : jsnum) : bool := num_lt b a.



(** [a === b] on values of numeric fields. *)
Definition strict_eq (a b : jsnum) : bool :=
  match a, b with
  | Num p, Num q => Qeq_bool p q
  | Undefined, Undefined => true
  | Null, Null => true
  | _, _ => false
  end.

Definition is_null (a : jsnum) : bool :=
  match a with Null => true | _ => false end.

(** [Math.max(...l)].  With no argument the result is [-Infinity]; every
    call in the modelled code is guarded by [length > 0], so that case is
    given the absorbing value. *)
Fixpoint Math_max (l : list jsnum) : jsnum :=
  match l with
  | [] => NaN
  | [a] => ofNumber (toNumber a)
  | a :: l' =>
      match toNumber a, toNumber (Math_max l') with
      | Some p, Some q => Num (if Qlt_bool p q then q else p)
      | _, _ => NaN
      end
  end.

(** ** Strings *)

(** A string is its sequence of UTF-16 code units. *)
Definition char : Type := N.
Definition jsstring : Type := list char.

Definition str (s : string) : jsstring :=
  List.map N_of_ascii (list_ascii_of_string s).

Definition in_range (lo hi c : char) : bool := (N.leb lo c && N.leb c hi)%N.

(** [\d], [\s] (WhiteSpace and LineTerminator code points) and [\w]. *)
Definition is_digit (c : char) : bool := in_range 48%N 57%N c.

Definition is_space (c : char) : bool :=
  (in_range 9 13 c || N.eqb c 32 || N.eqb c 160 || N.eqb c 5760
   || in_range 8192 8202 c || N.eqb c 8232 || N.eqb c 8233
   || N.eqb c 8239 || N.eqb c 8287 || N.eqb c 12288 || N.eqb c 65279)%N.

Definition is_upper (c : char) : bool := in_range 65%N 90%N c.
Definition is_lower (c : char) : bool := in_range 97%N 122%N c.
Definition is_letter (c : char) : bool := is_upper c || is_lower c.

Fixpoint trimStart (s : jsstring) : jsstring :=
  match s with
  | c :: s' => if is_space c then trimStart s' else s
  | [] => []
  end.

Definition trimEnd (s : jsstring) : jsstring := rev (trimStart (rev s)).

(** [s.trim()] *)
Definition trim (s : jsstring) : jsstring := trimEnd (trimStart s).

(** [parts.join(sep)] *)
Fixpoint join (sep : jsstring) (parts : list jsstring) : jsstring :=
  match parts with
  | [] => []
  | [p] => p
  | p :: rest => p ++ sep ++ join sep rest
  end.

Definition is_empty {A} (l : list A) : bool :=
  match l with [] => true | _ => false end.

Fixpoint str_eqb (a b : jsstring) : bool :=
  match a, b with
  | [], [] => true
  | c :: a', d :: b' => N.eqb c d && str_eqb a' b'
  | _, _ => false
  end.

(** [s.slice(i, j)] for [0 <= i] and [0 <= j]. *)
Definition slice (s : jsstring) (i j : nat) : jsstring :=
  firstn (j - i) (skipn i s).

(** ** Array.prototype.sort *)

(** The sort is required to be stable; a comparator result that is not a
    number counts as [+0].  It is modelled by the stable insertion sort:
    each element is placed before the first element it compares strictly
    below.  Whenever the comparator is a consistent ordering of the input
    this is the order every conforming engine produces. *)
Section Sort.
Context {A : Type} (cmp : A -> A -> jsnum).

Fixpoint insert_sorted (a : A) (l : list A) : list A :=
  match l with
  | [] => [a]
  | b :: l' =>
      if num_lt (cmp a b) (Num 0%Q) then a :: b :: l'
      else b :: insert_sorted a l'
  end.

Definition Array_sort (l : list A) : list A :=
  fold_left (fun acc a => insert_sorted a acc) l [].
End Sort.

(** ** PDFProcessor: text items, lines and paragraphs *)

(** One positioned fragment, as built in [extractAllPages]. *)
Record TextItem : Type := mkItem {
  item_text : jsstring;
  item_x : jsnum;
  item_y : jsnum;
  item_width : jsnum;
  item_height : jsnum;
  item_fontName : jsstring;
  item_fontSize : jsnum;
  item_bold : bool;
  item_italic : bool
}.

Record Line : Type := mkLine {
  line_y : jsnum;
  line_items : list TextItem;
  line_text : jsstring;
  line_fontSize : jsnum;
  line_bold : bool;
  line_italic : bool
}.

Record Paragraph : Type := mkParagraph {
  para_lines : list Line;
  para_text : jsstring;
  para_fontSize : jsnum;
  para_bold : bool;
  para_italic : bool;
  para_y : jsnum
}.

Record PageContent : Type := mkContent {
  lines : list Line;
  paragraphs : list Paragraph
}.

Definition space : jsstring := [32%N].

(** The comparator of [processTextItems]: within the 5-unit threshold
    left to right, otherwise top to bottom. *)
Definition compareItems (a b : TextItem) : jsnum :=
  let yDiff := Math_abs (num_sub (item_y a) (item_y b)) in
  if num_lt yDiff (Num 5%Q) then num_sub (item_x a) (item_x b)
  else num_sub (item_y b) (item_y a).

(** [if (currentLine.length > 0) lines.push({...})] *)
Definition pushLine (lines : list Line) (currentY : jsnum)
    (currentLine : list TextItem) : list Line :=
  match currentLine with
  | [] => lines
  | _ :: _ =>
      lines ++ [ {| line_y := currentY;
                    line_items := currentLine;
                    line_text := trim (join space (List.map item_text currentLine));
                    line_fontSize := Math_max (List.map item_fontSize currentLine);
                    line_bold := existsb item_bold currentLine;
                    line_italic := existsb item_italic currentLine |} ]
  end.

(** [currentY === null || Math.abs(item.y - currentY) < 5] *)
Definition sameLine (currentY : jsnum) (item : TextItem) : bool :=
  is_null currentY
  || num_lt (Math_abs (num_sub (item_y item) currentY)) (Num 5%Q).

(** The grouping loop of [processTextItems] with its three variables,
    followed by the push of the last line. *)
Fixpoint groupItems (sortedItems : list TextItem) (lines : list Line)
    (currentLine : list TextItem) (currentY : jsnum) : list Line :=
  match sortedItems with
  | [] => pushLine lines currentY currentLine
  | item :: rest =>
      if sameLine currentY item
      then groupItems rest lines (currentLine ++ [item]) (item_y item)
      else groupItems rest (pushLine lines currentY currentLine)
                      [item] (item_y item)
  end.

(** [if (isNewParagraph && currentParagraph.length > 0) paragraphs.push(..)]
    and the final push: the paragraph's attributes are those of its first
    line. *)
Definition pushParagraph (paragraphs : list Paragraph)
    (currentParagraph : list Line) : list Paragraph :=
  match currentParagraph with
  | [] => paragraphs
  | first :: _ =>
      paragraphs ++ [ {| para_lines := currentParagraph;
                         para_text := trim (join space (List.map line_text currentParagraph));
                         para_fontSize := line_fontSize first;
                         para_bold := line_bold first;
                         para_italic := line_italic first;
                         para_y := line_y first |} ]
  end.

Definition isNewParagraph (currentParagraph : list Line) (lastY : jsnum)
    (line : Line) : bool :=
  let lineSpacing :=
    if negb (is_null lastY) then Math_abs (num_sub lastY (line_y line))
    else Num 0%Q in
  num_gt lineSpacing (Num 20%Q)
  || is_empty (trim (line_text line))
  || match currentParagraph with
     | first :: _ =>
         num_gt (Math_abs (num_sub (line_fontSize line) (line_fontSize first)))
                (Num 2%Q)
     | [] => false
     end.

Fixpoint groupLines (lines : list Line) (paragraphs : list Paragraph)
    (currentParagraph : list Line) (lastY : jsnum) : list Paragraph :=
  match lines with
  | [] => pushParagraph paragraphs currentParagraph
  | line :: rest =>
      let flush := isNewParagraph currentParagraph lastY line
                   && negb (is_empty currentParagraph) in
      let paragraphs' :=
        if flush then pushParagraph paragraphs currentParagraph else paragraphs in
      let current' := if flush then [] else currentParagraph in
      let current'' :=
        if negb (is_empty (trim (line_text line))) then current' ++ [line]
        else current' in
      groupLines rest paragraphs' current'' (line_y line)
  end.

Definition groupLinesIntoParagraphs (lines : list Line) : list Paragraph :=
  match lines with
  | [] => []
  | _ => groupLines lines [] [] Null
  end.

Definition processTextItems (textItems : list TextItem) : PageContent :=
  match textItems with
  | [] => {| lines := []; paragraphs := [] |}
  | _ =>
      let sortedItems := Array_sort compareItems textItems in
      let lines := groupItems sortedItems [] [] Null in
      {| lines := lines; paragraphs := groupLinesIntoParagraphs lines |}
  end.

(** ** Regular expressions *)

(** The fragment of the pattern language the two classes use.  [Group]
    is the capture group read back as [match[1]]; parentheses whose
    capture is never read are plain grouping. *)
Inductive regex : Type :=
| Eps
| Chr (p : char -> bool)
| Seq (r1 r2 : regex)
| Alt (r1 r2 : regex)
| Star (r : regex)
| Group (r : regex)
| Bol
| Eol.

Record mstate : Type := mkState {
  pos : nat;
  rest : jsstring;
  cap1 : option jsstring
}.

(** Backtracking matcher in continuation-passing style: alternatives are
    tried left to right, [Star] is greedy and an iteration that consumes
    nothing is not taken. *)
Fixpoint rmatch {R : Type} (r : regex) (s : mstate)
    (k : mstate -> option R) : option R :=
  match r with
  | Eps => k s
  | Chr p =>
      match rest s with
      | c :: t => if p c then k (mkState (S (pos s)) t (cap1 s)) else None
      | [] => None
      end
  | Seq r1 r2 => rmatch r1 s (fun s' => rmatch r2 s' k)
  | Alt r1 r2 =>
      match rmatch r1 s k with
      | Some x => Some x
      | None => rmatch r2 s k
      end
  | Star r' =>
      (fix star (fuel : nat) (s : mstate) : option R :=
         match fuel with
         | O => k s
         | S fuel' =>
             match rmatch r' s (fun s' =>
                     if (length (rest s') <? length (rest s))%nat
                     then star fuel' s' else None) with
             | Some x => Some x
             | None => k s
             end
         end) (length (rest s)) s
  | Group r' =>
      rmatch r' s (fun s' =>
        k (mkState (pos s') (rest s')
                   (Some (firstn (pos s' - pos s) (rest s)))))
  | Bol => if (pos s =? 0)%nat then k s else None
  | Eol => if is_empty (rest s) then k s else None
  end.

Record rmatch_result : Type := mkMatch {
  m_index : nat;
  m_end : nat;
  m_group1 : option jsstring
}.

(** A match starting exactly at index [p], where [suffix] is the input
    from [p] on. *)
Definition match_at (r : regex) (p : nat) (suffix : jsstring)
    : option rmatch_result :=
  rmatch r (mkState p suffix None)
         (fun s' => Some (mkMatch p (pos s') (cap1 s'))).

(** The leftmost match at or after index [p]. *)
Fixpoint search (r : regex) (p : nat) (suffix : jsstring)
    : option rmatch_result :=
  match match_at r p suffix with
  | Some m => Some m
  | None =>
      match suffix with
      | [] => None
      | _ :: t => search r (S p) t
      end
  end.

(** [r.exec(input)] with [lastIndex = from]. *)
Definition regex_exec (r : regex) (input : jsstring) (from : nat)
    : option rmatch_result :=
  if (from <=? length input)%nat then search r from (skipn from input)
  else None.

(** [r.test(input)] *)
Definition regex_test (r : regex) (input : jsstring) : bool :=
  match regex_exec r input 0 with Some _ => true | None => false end.

(** [input.replace(r, repl)] for a pattern without the [g] flag. *)
Definition replace_first (r : regex) (repl input : jsstring) : jsstring :=
  match regex_exec r input 0 with
  | Some m => firstn (m_index m) input ++ repl ++ skipn (m_end m) input
  | None => input
  end.

(** [input.replace(r, repl)] for a pattern with the [g] flag: [suffix] is
    the input from index [p] on; after an empty match the scan moves one
    code unit forward. *)
Fixpoint replace_from (fuel : nat) (r : regex) (repl : jsstring)
    (p : nat) (suffix : jsstring) : jsstring :=
  match fuel with
  | O => suffix
  | S fuel' =>
      match search r p suffix with
      | None => suffix
      | Some m =>
          let before := firstn (m_index m - p) suffix in
          let after := skipn (m_end m - p) suffix in
          if (m_end m =? m_index m)%nat then
            match after with
            | [] => before ++ repl
            | c :: t =>
                before ++ repl ++ c :: replace_from fuel' r repl (S (m_end m)) t
            end
          else before ++ repl ++ replace_from fuel' r repl (m_end m) after
      end
  end.

Definition replace_all (r : regex) (repl input : jsstring) : jsstring :=
  replace_from (S (length input)) r repl 0 input.

(** [input.split(r)] for a pattern without capture groups: the matcher
    is tried at each index [q]; a match ending at [p] is skipped. *)
Fixpoint split_loop (fuel : nat) (r : regex) (input : jsstring)
    (p q : nat) : list jsstring :=
  match fuel with
  | O => [slice input p (length input)]
  | S fuel' =>
      if (q <? length input)%nat then
        match match_at r q (skipn q input) with
        | None => split_loop fuel' r input p (S q)
        | Some m =>
            if (m_end m =? p)%nat then split_loop fuel' r input p (S q)
            else slice input p q :: split_loop fuel' r input (m_end m) (m_end m)
        end
      else [slice input p (length input)]
  end.

Definition split (r : regex) (input : jsstring) : list jsstring :=
  match input with
  | [] => match match_at r 0 [] with Some _ => [] | None => [[]] end
  | _ => split_loop (2 * length input + 2) r input 0 0
  end.

(** Pattern combinators. *)
Definition Plus (r : regex) : regex := Seq r (Star r).
Definition Opt (r : regex) : regex := Alt r Eps.

Fixpoint Seqs (rs : list regex) : regex :=
  match rs with
  | [] => Eps
  | [r] => r
  | r :: rs' => Seq r (Seqs rs')
  end.

Fixpoint Alts (rs : list regex) : regex :=
  match rs with
  | [] => Eps
  | [r] => r
  | r :: rs' => Alt r (Alts rs')
  end.

(** [r{n,}] *)
Fixpoint AtLeast (n : nat) (r : regex) : regex :=
  match n with
  | O => Star r
  | S n' => Seq r (AtLeast n' r)
  end.

Definition one_of (cs : jsstring) : char -> bool :=
  fun c => existsb (N.eqb c) cs.

(** A literal, and a literal under the [i] flag (ASCII letters in either
    case). *)
Definition Lit (s : string) : regex :=
  Seqs (List.map (fun c => Chr (N.eqb c)) (str s)).

Definition lower (c : char) : char :=
  if is_upper c then (c + 32)%N else c.

Definition LitI (s : string) : regex :=
  Seqs (List.map (fun c => Chr (fun d => N.eqb (lower d) (lower c))) (str s)).

Definition digit : regex := Chr is_digit.
Definition ws : regex := Chr is_space.

(** ** PDFProcessor: headings, lists and tables of one page *)

Record Heading : Type := mkHeading {
  heading_text : jsstring;
  heading_level : Z;
  heading_fontSize : jsnum;
  heading_bold : bool;
  heading_y : jsnum;
  heading_pageNumber : jsnum
}.

(** The only division of the code, [sum / fontSizes.length]: when the
    divisor is [0] the dividend is [0] too and the quotient is [NaN]. *)
Definition num_div (a b : jsnum) : jsnum :=
  match toNumber a, toNumber b with
  | Some p, Some q => if Qeq_bool q 0 then NaN else Num (p / q)
  | _, _ => NaN
  end.

Definition num_of_nat (n : nat) : jsnum := Num (inject_Z (Z.of_nat n)).

(** [/^(Chapter|Section|\d+\.|\d+\.\d+)/] *)
Definition headingShape : regex :=
  Seq Bol (Alts [ Lit "Chapter"; Lit "Section";
                  Seq (Plus digit) (Lit ".");
                  Seqs [Plus digit; Lit "."; Plus digit] ]).

Definition averageFontSize (paragraphs : list Paragraph) : jsnum :=
  let fontSizes :=
    List.filter (fun s => num_gt s (Num 0)) (List.map para_fontSize paragraphs) in
  num_div (fold_left num_add fontSizes (Num 0)) (num_of_nat (length fontSizes)).

Definition headingLevel (fontSize avgFontSize : jsnum) : Z :=
  if num_gt fontSize (num_mul avgFontSize (Num (18 # 10))) then 1
  else if num_gt fontSize (num_mul avgFontSize (Num (15 # 10))) then 2
  else if num_gt fontSize (num_mul avgFontSize (Num (13 # 10))) then 3
  else if num_gt fontSize (num_mul avgFontSize (Num (11 # 10))) then 4
  else 5.

(** The headings leave [identifyHeadings] without a page number; the
    caller [analyzeStructure] adds it ([withPage]). *)
Definition headingOf (avgFontSize : jsnum) (paragraph : Paragraph)
    : option Heading :=
  let isLargerFont :=
    num_gt (para_fontSize paragraph) (num_mul avgFontSize (Num (12 # 10))) in
  let isBold := para_bold paragraph in
  let isShort := (length (para_text paragraph) <? 100)%nat in
  let hasHeadingPattern := regex_test headingShape (trim (para_text paragraph)) in
  if (isLargerFont || isBold || hasHeadingPattern) && isShort then
    Some {| heading_text := trim (para_text paragraph);
            heading_level := headingLevel (para_fontSize paragraph) avgFontSize;
            heading_fontSize := para_fontSize paragraph;
            heading_bold := para_bold paragraph;
            heading_y := para_y paragraph;
            heading_pageNumber := Undefined |}
  else None.

Definition identifyHeadings (paragraphs : list Paragraph) : list Heading :=
  match paragraphs with
  | [] => []
  | _ => omap (headingOf (averageFontSize paragraphs)) paragraphs
  end.

Inductive ListType : Type := ordered | unordered.

Definition ListType_eqb (a b : ListType) : bool :=
  match a, b with
  | ordered, ordered | unordered, unordered => true
  | _, _ => false
  end.

Record ListItem : Type := mkListItem {
  li_text : jsstring;
  li_marker : jsstring;
  li_y : jsnum
}.

Record ListBlock : Type := mkList {
  list_type : ListType;
  list_items : list ListItem;
  list_y : jsnum;
  list_pageNumber : jsnum
}.

(** The bullet characters U+2022 U+00B7 U+25AA U+25AB U+2023 U+2043. *)
Definition bulletChars : jsstring := [8226; 183; 9642; 9643; 8227; 8259]%N.

(** [/^[•·▪▫‣⁃]\s/], [/^[-*+]\s/], [/^\d+[.)]\s/], [/^[a-zA-Z][.)]\s/] *)
Definition bulletRe : regex := Seqs [Bol; Chr (one_of bulletChars); ws].
Definition dashRe : regex := Seqs [Bol; Chr (one_of (str "-*+")); ws].
Definition numberedRe : regex :=
  Seqs [Bol; Plus digit; Chr (one_of (str ".)")); ws].
Definition letterRe : regex :=
  Seqs [Bol; Chr is_letter; Chr (one_of (str ".)")); ws].

(** [/^([•·▪▫‣⁃\-*+]|\d+[.)]|[a-zA-Z][.)])/], and the same followed by
    [\s] in the replacement of the item text. *)
Definition markerGroup : regex :=
  Group (Alts [ Chr (one_of (bulletChars ++ str "-*+"));
                Seq (Plus digit) (Chr (one_of (str ".)")));
                Seq (Chr is_letter) (Chr (one_of (str ".)"))) ]).
Definition markerRe : regex := Seq Bol markerGroup.
Definition markerSpaceRe : regex := Seqs [Bol; markerGroup; ws].

Definition isListItem (text : jsstring) : bool :=
  let isBulletPoint := regex_test bulletRe text || regex_test dashRe text in
  let isNumberedItem := regex_test numberedRe text in
  let isLetterItem := regex_test letterRe text in
  isBulletPoint || isNumberedItem || isLetterItem.

Definition listTypeOf (text : jsstring) : ListType :=
  if regex_test bulletRe text || regex_test dashRe text then unordered
  else ordered.

Definition listItemOf (text : jsstring) (y : jsnum) : ListItem :=
  {| li_text := trim (replace_first markerSpaceRe [] text);
     li_marker :=
       match regex_exec markerRe text 0 with
       | Some m => match m_group1 m with Some g => g | None => [] end
       | None => []
       end;
     li_y := y |}.

Definition addItem (l : ListBlock) (it : ListItem) : ListBlock :=
  {| list_type := list_type l; list_items := list_items l ++ [it];
     list_y := list_y l; list_pageNumber := list_pageNumber l |}.

Definition pushList (lists : list ListBlock) (currentList : option ListBlock)
    : list ListBlock :=
  match currentList with
  | Some l => lists ++ [l]
  | None => lists
  end.

Fixpoint identifyLists_loop (paragraphs : list Paragraph)
    (lists : list ListBlock) (currentList : option ListBlock)
    : list ListBlock :=
  match paragraphs with
  | [] => pushList lists currentList
  | paragraph :: rest =>
      let text := trim (para_text paragraph) in
      if isListItem text then
        let listType := listTypeOf text in
        let fresh := {| list_type := listType; list_items := [];
                        list_y := para_y paragraph;
                        list_pageNumber := Undefined |} in
        let '(lists', current) :=
          match currentList with
          | Some l =>
              if negb (ListType_eqb (list_type l) listType)
              then (lists ++ [l], fresh) else (lists, l)
          | None => (lists, fresh)
          end in
        identifyLists_loop rest lists'
          (Some (addItem current (listItemOf text (para_y paragraph))))
      else
        identifyLists_loop rest (pushList lists currentList) None
  end.

Definition identifyLists (paragraphs : list Paragraph) : list ListBlock :=
  identifyLists_loop paragraphs [] None.

Record TableRow : Type := mkRow {
  row_text : jsstring;
  row_segments : list jsstring;
  row_y : jsnum
}.

Record TableBlock : Type := mkTable {
  table_rows : list TableRow;
  table_columnCount : nat;
  table_y : jsnum;
  table_pageNumber : jsnum
}.

(** An entry of [potentialTableLines]. *)
Record Candidate : Type := mkCandidate {
  cand_line : Line;
  cand_segments : list jsstring;
  cand_segmentCount : nat
}.

(** [/\s{3,}/] *)
Definition wideGap : regex := AtLeast 3 ws.

Definition candidateOf (line : Line) : option Candidate :=
  let segments := split wideGap (line_text line) in
  if (3 <=? length segments)%nat
  then Some (mkCandidate line segments (length segments))
  else None.

Definition rowOf (c : Candidate) : TableRow :=
  {| row_text := line_text (cand_line c);
     row_segments := cand_segments c;
     row_y := line_y (cand_line c) |}.

(** [if (currentTable.length >= 2) tables.push({...})] *)
Definition pushTable (tables : list TableBlock) (currentTable : list Candidate)
    : list TableBlock :=
  match currentTable with
  | first :: _ :: _ =>
      tables ++ [ {| table_rows := List.map rowOf currentTable;
                     table_columnCount := cand_segmentCount first;
                     table_y := line_y (cand_line first);
                     table_pageNumber := Undefined |} ]
  | _ => tables
  end.

Definition joinsTable (currentTable : list Candidate) (first current : Candidate)
    : bool :=
  let lastY := line_y (cand_line (List.last currentTable first)) in
  let yDiff := Math_abs (num_sub (line_y (cand_line current)) lastY) in
  num_lt yDiff (Num 30)
  && (Z.abs (Z.of_nat (cand_segmentCount current)
             - Z.of_nat (cand_segmentCount first)) <=? 1)%Z.

Fixpoint groupTableLines (potentialTableLines : list Candidate)
    (tables : list TableBlock) (currentTable : list Candidate)
    : list TableBlock :=
  match potentialTableLines with
  | [] => pushTable tables currentTable
  | current :: rest =>
      match currentTable with
      | [] => groupTableLines rest tables [current]
      | first :: _ =>
          if joinsTable currentTable first current
          then groupTableLines rest tables (currentTable ++ [current])
          else groupTableLines rest (pushTable tables currentTable) [current]
      end
  end.

Definition potentialTableLines (lines : list Line) : list Candidate :=
  omap candidateOf lines.

Definition identifyTables (lines : list Line) : list TableBlock :=
  let potential := potentialTableLines lines in
  if (2 <=? length potential)%nat then groupTableLines potential [] []
  else [].

(** ** The extracted document *)

(** One page as pushed by [extractAllPages]; [page_error] is set on the
    pages pushed by its [catch] branch. *)
Record Page : Type := mkPage {
  page_pageNumber : jsnum;
  page_textItems : list TextItem;
  page_content : PageContent;
  page_rawText : jsstring;
  page_error : bool
}.

(** A text item as the external reader hands it over: [transform] is the
    six-entry placement matrix, absent on a damaged item. *)
Record RawItem : Type := mkRaw {
  raw_str : jsstring;
  raw_transform : option (list jsnum);
  raw_width : jsnum;
  raw_height : jsnum;
  raw_fontName : option jsstring
}.

(** [s.toLowerCase().includes(w)] for an ASCII word [w]. *)
Fixpoint starts_with (w s : jsstring) : bool :=
  match w, s with
  | [], _ => true
  | c :: w', d :: s' => N.eqb c (lower d) && starts_with w' s'
  | _ :: _, [] => false
  end.

Fixpoint includes_lower (w s : jsstring) : bool :=
  starts_with w s
  || match s with
     | [] => false
     | _ :: s' => includes_lower w s'
     end.

(** The item literal of [extractAllPages]; [None] is the [TypeError] of
    indexing an absent [transform]. *)
Definition textItemOf (item : RawItem) : option TextItem :=
  match raw_transform item with
  | None => None
  | Some transform =>
      let fontHas w :=
        match raw_fontName item with
        | Some name => includes_lower (str w) name
        | None => false
        end in
      Some {| item_text := raw_str item;
              item_x := nth 4 transform Undefined;
              item_y := nth 5 transform Undefined;
              item_width := raw_width item;
              item_height := raw_height item;
              item_fontName := match raw_fontName item with
                               | Some name => name | None => [] end;
              item_fontSize := nth 0 transform Undefined;
              item_bold := fontHas "bold"%string;
              item_italic := fontHas "italic"%string |}
  end.

Definition textItemsOf (items : list RawItem) : option (list TextItem) :=
  mapM textItemOf items.

(** The body of the page loop of [extractAllPages]: the [try] block, and
    the [catch] block that logs the error and pushes an empty page. *)
Definition extractPage (pageNum : nat) (items : list RawItem) : Page :=
  match textItemsOf items with
  | Some textItems =>
      {| page_pageNumber := num_of_nat pageNum;
         page_textItems := textItems;
         page_content := processTextItems textItems;
         page_rawText := join space (List.map raw_str items);
         page_error := false |}
  | None =>
      {| page_pageNumber := num_of_nat pageNum;
         page_textItems := [];
         page_content := {| lines := []; paragraphs := [] |};
         page_rawText := [];
         page_error := true |}
  end.

Fixpoint extractPagesFrom (pageNum : nat) (doc : list (list RawItem))
    : list Page :=
  match doc with
  | [] => []
  | items :: doc' => extractPage pageNum items :: extractPagesFrom (S pageNum) doc'
  end.

Definition extractAllPages (doc : list (list RawItem)) : list Page :=
  extractPagesFrom 1 doc.

Record Structure : Type := mkStructure {
  headings : list Heading;
  tables : list TableBlock;
  lists : list ListBlock
}.

Record Content : Type := mkDoc {
  pages : list Page;
  structure : Structure
}.

Definition headingWithPage (n : jsnum) (h : Heading) : Heading :=
  {| heading_text := heading_text h; heading_level := heading_level h;
     heading_fontSize := heading_fontSize h; heading_bold := heading_bold h;
     heading_y := heading_y h; heading_pageNumber := n |}.

Definition listWithPage (n : jsnum) (l : ListBlock) : ListBlock :=
  {| list_type := list_type l; list_items := list_items l;
     list_y := list_y l; list_pageNumber := n |}.

Definition tableWithPage (n : jsnum) (t : TableBlock) : TableBlock :=
  {| table_rows := table_rows t; table_columnCount := table_columnCount t;
     table_y := table_y t; table_pageNumber := n |}.

(** [PDFProcessor.analyzeStructure]: pages with an error are skipped. *)
Fixpoint analyzePages (pages : list Page) (st : Structure) : Structure :=
  match pages with
  | [] => st
  | page :: rest =>
      if page_error page then analyzePages rest st
      else
        let n := page_pageNumber page in
        let content := page_content page in
        analyzePages rest
          {| headings := headings st
               ++ List.map (headingWithPage n) (identifyHeadings (paragraphs content));
             tables := tables st
               ++ List.map (tableWithPage n) (identifyTables (lines content));
             lists := lists st
               ++ List.map (listWithPage n) (identifyLists (paragraphs content)) |}
  end.

Definition analyzeStructure (pages : list Page) : Structure :=
  analyzePages pages {| headings := []; tables := []; lists := [] |}.

Definition processPDF (doc : list (list RawItem)) : Content :=
  let pages := extractAllPages doc in
  {| pages := pages; structure := analyzeStructure pages |}.

(** ** StructureAnalyzer: outline *)

(** The comparator shared by [generateOutline] and [identifySections]:
    by page, then higher [y] first. *)
Definition compareHeadings (a b : Heading) : jsnum :=
  if negb (strict_eq (heading_pageNumber a) (heading_pageNumber b))
  then num_sub (heading_pageNumber a) (heading_pageNumber b)
  else num_sub (heading_y b) (heading_y a).

(** The outline items are objects that are reachable both from the
    outline (or from their parent's [children]) and from the stack, and
    are mutated through the stack.  They live in a store in allocation
    order; a reference is an index of the store. *)
Record OutlineItem : Type := mkItemO {
  oi_text : jsstring;
  oi_level : Z;
  oi_pageNumber : jsnum;
  oi_children : list nat
}.

Record OutlineState : Type := mkOState {
  store : list OutlineItem;
  outline : list nat;
  stack : list nat    (* top of the stack first *)
}.

(** [while (stack.length > 0 && stack[stack.length - 1].level >= level)
      stack.pop()] *)
Fixpoint popStack (store : list OutlineItem) (level : Z) (stack : list nat)
    : list nat :=
  match stack with
  | [] => []
  | top :: below =>
      match store !! top with
      | Some it =>
          if (level <=? oi_level it)%Z then popStack store level below
          else stack
      | None => stack
      end
  end.

Definition addChild (child : nat) (it : OutlineItem) : OutlineItem :=
  {| oi_text := oi_text it; oi_level := oi_level it;
     oi_pageNumber := oi_pageNumber it;
     oi_children := oi_children it ++ [child] |}.

(** One iteration of the loop of [generateOutline]. *)
Definition outlineStep (st : OutlineState) (heading : Heading) : OutlineState :=
  let item := length (store st) in
  let store1 := store st ++ [ {| oi_text := heading_text heading;
                                 oi_level := heading_level heading;
                                 oi_pageNumber := heading_pageNumber heading;
                                 oi_children := [] |} ] in
  let stack1 := popStack (store st) (heading_level heading) (stack st) in
  match stack1 with
  | [] => {| store := store1; outline := outline st ++ [item];
             stack := [item] |}
  | top :: _ => {| store := alter (addChild item) top store1;
                   outline := outline st;
                   stack := item :: stack1 |}
  end.

Definition outlineLoop (hs : list Heading) : OutlineState :=
  fold_left outlineStep hs {| store := []; outline := []; stack := [] |}.

(** The returned value, read back from the store as a forest. *)
#[warnings="-register-all"]
Inductive OutlineNode : Type :=
| Node (text : jsstring) (level : Z) (pageNumber : jsnum)
       (children : list OutlineNode).

Definition node_level (n : OutlineNode) : Z :=
  match n with Node _ level _ _ => level end.

Definition node_children (n : OutlineNode) : list OutlineNode :=
  match n with Node _ _ _ children => children end.

(** [nodesFrom items base] are the nodes of the references [base],
    [base + 1], ...: an item only ever receives children allocated after
    it. *)
Fixpoint nodesFrom (items : list OutlineItem) (base : nat)
    : list OutlineNode :=
  match items with
  | [] => []
  | it :: items' =>
      let later := nodesFrom items' (S base) in
      Node (oi_text it) (oi_level it) (oi_pageNumber it)
           (omap (fun c => if (c <=? base)%nat then None
                           else later !! (c - S base)%nat)
                 (oi_children it))
      :: later
  end.

Definition forestOf (st : OutlineState) : list OutlineNode :=
  omap (fun r => nodesFrom (store st) 0 !! r) (outline st).

Definition generateOutline (content : Content) : list OutlineNode :=
  let headings := Array_sort compareHeadings (headings (structure content)) in
  forestOf (outlineLoop headings).

(** ** StructureAnalyzer: sections *)

Definition newlines : jsstring := [10; 10]%N.

Definition sameParagraph (paragraph : Paragraph) (h : Heading) : bool :=
  strict_eq (para_y paragraph) (heading_y h)
  && str_eqb (para_text paragraph) (heading_text h).

(** The inner loop of [extractSectionContent] over the paragraphs of one
    page; the result is [content] and [collecting] when the loop is left
    (by exhaustion or by [break]). *)
Fixpoint scanParagraphs (paragraphs : list Paragraph) (startHeading : Heading)
    (endHeading : option Heading) (content : jsstring) (collecting : bool)
    : jsstring * bool :=
  match paragraphs with
  | [] => (content, collecting)
  | paragraph :: rest =>
      let isStartHeading := sameParagraph paragraph startHeading in
      let isEndHeading :=
        match endHeading with
        | Some e => sameParagraph paragraph e
        | None => false
        end in
      if isStartHeading then
        scanParagraphs rest startHeading endHeading content true
      else if isEndHeading then (content, false)
      else if collecting then
        scanParagraphs rest startHeading endHeading
                       (content ++ para_text paragraph ++ newlines) collecting
      else scanParagraphs rest startHeading endHeading content collecting
  end.

Definition is_some {A} (o : option A) : bool :=
  match o with Some _ => true | None => false end.

(** The outer loop over the pages. *)
Fixpoint scanPages (pages : list Page) (startHeading : Heading)
    (endHeading : option Heading) (content : jsstring) (collecting : bool)
    : jsstring :=
  match pages with
  | [] => content
  | page :: rest =>
      if num_lt (page_pageNumber page) (heading_pageNumber startHeading)
      then scanPages rest startHeading endHeading content collecting
      else if match endHeading with
              | Some e => num_gt (page_pageNumber page) (heading_pageNumber e)
              | None => false
              end
      then content
      else
        let '(content', collecting') :=
          scanParagraphs (paragraphs (page_content page))
                         startHeading endHeading content collecting in
        if negb collecting' && is_some endHeading then content'
        else scanPages rest startHeading endHeading content' collecting'
  end.

Definition extractSectionContent (pages : list Page) (startHeading : Heading)
    (endHeading : option Heading) : jsstring :=
  trim (scanPages pages startHeading endHeading [] false).






(** [cleanHeadingText]: the four replacements, in order
    [/^\d+(\.\d+)*\s*/], [/^(Chapter|Section|Part|Appendix)\s+\d+\s*/i],
    [/^\s+|\s+$/g], [/\s+/g]. *)
Definition numberingRe : regex :=
  Seqs [Bol; Plus digit; Star (Seq (Lit ".") (Plus digit)); Star ws].

Definition prefixRe : regex :=
  Seqs [Bol; Alts [LitI "Chapter"; LitI "Section"; LitI "Part"; LitI "Appendix"];
        Plus ws; Plus digit; Star ws].

Definition edgeSpaceRe : regex :=
  Alt (Seq Bol (Plus ws)) (Seq (Plus ws) Eol).

Definition cleanHeadingText (text : jsstring) : jsstring :=
  replace_all (Plus ws) space
    (replace_all edgeSpaceRe []
       (replace_first prefixRe []
          (replace_first numberingRe [] text))).

(** ** StructureAnalyzer: cross-references *)

Inductive RefType : Type :=
| ref_page | ref_section | ref_figure | ref_table | ref_chapter | ref_appendix.

Record CrossReference : Type := mkRef {
  ref_type : RefType;
  ref_reference : jsstring;
  ref_fullMatch : jsstring;
  ref_pageNumber : jsnum;
  ref_context : jsstring
}.

(** The six patterns, all with the flags [gi]: a keyword or its
    abbreviation ([page|p.], [section|sec.], [figure|fig.], [table|tbl.],
    [chapter|ch.], [appendix|app.]), optional white space, and the
    captured reference: a run of digits, for a section a dotted run of
    digit groups, for an appendix one letter. *)
Definition refPattern (t : RefType) : regex :=
  match t with
  | ref_page =>
      Seqs [Alt (LitI "page") (LitI "p."); Star ws; Group (Plus digit)]
  | ref_section =>
      Seqs [Alt (LitI "section") (LitI "sec."); Star ws;
            Group (Seq (Plus digit) (Star (Seq (Lit ".") (Plus digit))))]
  | ref_figure =>
      Seqs [Alt (LitI "figure") (LitI "fig."); Star ws; Group (Plus digit)]
  | ref_table =>
      Seqs [Alt (LitI "table") (LitI "tbl."); Star ws; Group (Plus digit)]
  | ref_chapter =>
      Seqs [Alt (LitI "chapter") (LitI "ch."); Star ws; Group (Plus digit)]
  | ref_appendix =>
      Seqs [Alt (LitI "appendix") (LitI "app."); Star ws;
            Group (Chr is_letter)]
  end.

Definition refTypes : list RefType :=
  [ref_page; ref_section; ref_figure; ref_table; ref_chapter; ref_appendix].

(** [extractContext(text, index, contextLength)] *)
Definition extractContext (text : jsstring) (index contextLength : Z)
    : jsstring :=
  let start := Z.max 0 (index - contextLength) in
  let end_ := Z.min (Z.of_nat (length text)) (index + contextLength) in
  trim (slice text (Z.to_nat start) (Z.to_nat end_)).

(** [while ((match = pattern.exec(text)) !== null)]: each call resumes at
    the end of the previous match.  No pattern above matches the empty
    string, so [length text] iterations exhaust the text. *)
Fixpoint execAll (fuel : nat) (pattern : regex) (text : jsstring)
    (lastIndex : nat) : list rmatch_result :=
  match fuel with
  | O => []
  | S fuel' =>
      match regex_exec pattern text lastIndex with
      | None => []
      | Some m => m :: execAll fuel' pattern text (m_end m)
      end
  end.

Definition referenceOf (page : Page) (t : RefType) (m : rmatch_result)
    : CrossReference :=
  let text := page_rawText page in
  {| ref_type := t;
     ref_reference := match m_group1 m with Some g => g | None => [] end;
     ref_fullMatch := slice text (m_index m) (m_end m);
     ref_pageNumber := page_pageNumber page;
     ref_context := extractContext text (Z.of_nat (m_index m)) 50 |}.

Definition pageReferences (page : Page) : list CrossReference :=
  let text := page_rawText page in
  flat_map (fun t =>
              List.map (referenceOf page t)
                       (execAll (S (length text)) (refPattern t) text 0))
           refTypes.

Definition findCrossReferences (content : Content) : list CrossReference :=
  flat_map pageReferences (pages content).

(** ** StructureAnalyzer: reading order *)

Definition calculateReadingOrder (pageNumber y : jsnum) : jsnum :=
  num_add (num_mul pageNumber (Num 10000)) (num_sub (Num 10000) y).

Inductive ElementContent : Type :=
| EHeading (h : Heading)
| EParagraph (p : Paragraph)
| EList (l : ListBlock)
| ETable (t : TableBlock).

Record ReadingOrderElement : Type := mkElement {
  elem_content : ElementContent;
  elem_pageNumber : jsnum;
  elem_y : jsnum;
  elem_order : jsnum
}.

Definition element (c : ElementContent) (pageNumber y : jsnum)
    : ReadingOrderElement :=
  {| elem_content := c; elem_pageNumber := pageNumber; elem_y := y;
     elem_order := calculateReadingOrder pageNumber y |}.

(** The elements collected for one page: headings, paragraphs, lists,
    tables, in this order. *)
Definition pageElements (content : Content) (page : Page)
    : list ReadingOrderElement :=
  let n := page_pageNumber page in
  List.map (fun h => element (EHeading h) n (heading_y h))
      (List.filter (fun h => strict_eq (heading_pageNumber h) n)
                   (headings (structure content)))
  ++ List.map (fun p => element (EParagraph p) n (para_y p))
      (paragraphs (page_content page))
  ++ List.map (fun l => element (EList l) n (list_y l))
      (List.filter (fun l => strict_eq (list_pageNumber l) n)
                   (lists (structure content)))
  ++ List.map (fun t => element (ETable t) n (table_y t))
      (List.filter (fun t => strict_eq (table_pageNumber t) n)
                   (tables (structure content))).

Definition compareOrder (a b : ReadingOrderElement) : jsnum :=
  num_sub (elem_order a) (elem_order b).

Definition determineReadingOrder (content : Content)
    : list ReadingOrderElement :=
  Array_sort compareOrder (flat_map (pageElements content) (pages content)).


(** The marker patterns declared by the constructor of
    [StructureAnalyzer] as [listPatterns]: [bullet], [numbered],
    [lettered], and [roman], which is [/^[\s]*[ivxlcdm]+[.)]\s/i]. *)
Definition listPatterns_bullet : regex :=
  Seqs [Bol; Star ws; Chr (one_of (bulletChars ++ str "-*+")); ws].
Definition listPatterns_numbered : regex :=
  Seqs [Bol; Star ws; Plus digit; Chr (one_of (str ".)")); ws].
Definition listPatterns_lettered : regex :=
  Seqs [Bol; Star ws; Chr is_letter; Chr (one_of (str ".)")); ws].
Definition listPatterns_roman : regex :=
  Seqs [Bol; Star ws; Plus (Chr (fun c => one_of (str "ivxlcdm") (lower c)));
        Chr (one_of (str ".)")); ws].

(** ** StructureAnalyzer: enhanced lists *)

(** [text.match(/^\s*/)[0].length], then one level per four spaces.  The
    pattern matches every string at index 0. *)
Definition leadingSpaceRe : regex := Seq Bol (Star ws).

Definition detectItemLevel (text : jsstring) : nat :=
  let leadingSpaces :=
    match regex_exec leadingSpaceRe text 0 with
    | Some m => m_end m - m_index m
    | None => 0
    end in
  leadingSpaces / 4 + 1.

Inductive ListStyle : Type :=
| style_bullet | style_dash | style_mixed
| style_numeric | style_alphabetic | style_roman | style_unknown.

(** [[...new Set(l)]]: the first occurrence of every value, in order. *)
Fixpoint uniqueFrom {A} (eqb : A -> A -> bool) (seen l : list A) : list A :=
  match l with
  | [] => []
  | a :: l' =>
      if existsb (eqb a) seen then uniqueFrom eqb seen l'
      else a :: uniqueFrom eqb (a :: seen) l'
  end.

Definition unique {A} (eqb : A -> A -> bool) (l : list A) : list A :=
  uniqueFrom eqb [] l.

(** [/^\d+/], [/^[a-zA-Z]/], [/^[ivxlcdm]/i] *)
Definition startsDigit : regex := Seq Bol (Plus digit).
Definition startsLetter : regex := Seq Bol (Chr is_letter).
Definition startsRoman : regex :=
  Seq Bol (Chr (fun c => one_of (str "ivxlcdm") (lower c))).

Definition detectListStyle (list : ListBlock) : ListStyle :=
  match list_type list with
  | unordered =>
      match unique str_eqb (List.map li_marker (list_items list)) with
      | [marker] =>
          if existsb (str_eqb marker) [[8226%N]; [183%N]; [9642%N]]
          then style_bullet
          else if existsb (str_eqb marker) [str "-"; str "*"; str "+"]
          then style_dash
          else style_mixed
      | _ => style_mixed
      end
  | ordered =>
      let firstMarker :=
        match list_items list with
        | it :: _ => li_marker it
        | [] => []
        end in
      if regex_test startsDigit firstMarker then style_numeric
      else if regex_test startsLetter firstMarker then style_alphabetic
      else if regex_test startsRoman firstMarker then style_roman
      else style_unknown
  end.

(** [Math.max(...levels)] and [Math.min(...levels)] on levels; [None] is
    the infinite value they give for no argument. *)
Definition maxOf (l : list nat) : option nat :=
  match l with
  | [] => None
  | a :: l' => Some (fold_left Nat.max l' a)
  end.

Definition minOf (l : list nat) : option nat :=
  match l with
  | [] => None
  | a :: l' => Some (fold_left Nat.min l' a)
  end.

Record Nesting : Type := mkNesting {
  hasNesting : bool;
  maxLevel : option nat;
  minLevel : option nat;
  levelCount : nat
}.

Definition analyzeListNesting (list : ListBlock) : Nesting :=
  let levels := List.map (fun it => detectItemLevel (li_text it))
                         (list_items list) in
  {| hasNesting := match maxOf levels, minOf levels with
                   | Some hi, Some lo => (lo <? hi)%nat
                   | _, _ => false
                   end;
     maxLevel := maxOf levels;
     minLevel := minOf levels;
     levelCount := length (unique Nat.eqb levels) |}.

Record CleanItem : Type := mkCleanItem {
  ci_item : ListItem;
  ci_cleanText : jsstring;
  ci_level : nat
}.

Record EnhancedList : Type := mkEnhancedList {
  el_list : ListBlock;
  el_style : ListStyle;
  el_nesting : Nesting;
  el_cleanItems : list CleanItem
}.

Definition enhanceList (list : ListBlock) : EnhancedList :=
  {| el_list := list;
     el_style := detectListStyle list;
     el_nesting := analyzeListNesting list;
     el_cleanItems :=
       List.map (fun it => {| ci_item := it;
                              ci_cleanText := trim (li_text it);
                              ci_level := detectItemLevel (li_text it) |})
                (list_items list) |}.

Definition enhanceLists (lists : list ListBlock) : list EnhancedList :=
  List.map enhanceList lists.

(** ** Utils: file names and validation *)

Definition dot : char := 46%N.

(** [s.lastIndexOf(c)]: the scan keeps the last index seen, [-1] when
    there is none. *)
Fixpoint lastIndexFrom (c : char) (s : jsstring) (i found : Z) : Z :=
  match s with
  | [] => found
  | d :: s' => lastIndexFrom c s' (i + 1) (if N.eqb d c then i else found)
  end.

Definition lastIndexOf (c : char) (s : jsstring) : Z :=
  lastIndexFrom c s 0 (-1).

(** [x >>> 0]: the unsigned 32-bit value of the integer [x]. *)
Definition toUint32 (x : Z) : Z := x mod 2 ^ 32.

(** [filename.slice((filename.lastIndexOf('.') - 1 >>> 0) + 2)] *)
Definition getFileExtension (filename : jsstring) : jsstring :=
  skipn (Z.to_nat (toUint32 (lastIndexOf dot filename - 1) + 2)) filename.

(** [s.includes(w)] and [s.endsWith(w)] *)
Fixpoint prefixb (w s : jsstring) : bool :=
  match w, s with
  | [], _ => true
  | c :: w', d :: s' => N.eqb c d && prefixb w' s'
  | _ :: _, [] => false
  end.

Fixpoint includes (w s : jsstring) : bool :=
  prefixb w s
  || match s with
     | [] => false
     | _ :: s' => includes w s'
     end.

Definition endsWith (w s : jsstring) : bool := prefixb (rev w) (rev s).

Definition toLowerCase (s : jsstring) : jsstring := List.map lower s.

Record File : Type := mkFile {
  file_name : jsstring;
  file_type : jsstring;
  file_size : Z
}.

Record Validation : Type := mkValidation {
  valid : bool;
  errors : list jsstring;
  warnings : list jsstring
}.

Section Validate.
(** [Utils.formatFileSize] works on floating-point logarithms; the
    validation only quotes its result in a message. *)
Variable formatFileSize : Z -> jsstring.

(** [if (cond) { result.valid = false; result.errors.push(msg); }] *)
Definition failWith (cond : bool) (msg : jsstring) (r : Validation) : Validation :=
  if cond
  then {| valid := false; errors := errors r ++ [msg];
          warnings := warnings r |}
  else r.

Definition validatePdfFile (file : File) : Validation :=
  let r0 := {| valid := true; errors := []; warnings := [] |} in
  let r1 := failWith (negb (includes (str "pdf") (file_type file))
                  && negb (endsWith (str ".pdf") (toLowerCase (file_name file))))
                 (str "File must be a PDF document") r0 in
  let maxSize := (50 * 1024 * 1024)%Z in
  let r2 := failWith (maxSize <? file_size file)%Z
                 (str "File size exceeds 50MB limit ("
                  ++ formatFileSize (file_size file) ++ str ")") r1 in
  let r3 := failWith (file_size file =? 0)%Z (str "File is empty") r2 in
  let warningSize := (10 * 1024 * 1024)%Z in
  if (warningSize <? file_size file)%Z
  then {| valid := valid r3; errors := errors r3;
          warnings := warnings r3
                      ++ [str "Large file may take longer to process"] |}
  else r3.
End Validate.

(** [Utils.sanitizeFilename]: [/[^a-z0-9.-]/gi] to ['_'], [/_{2,}/g] to
    ['_'], [/^_|_$/g] to the empty string. *)
Definition underscore : char := 95%N.

Definition filenameChar (c : char) : bool :=
  is_letter c || is_digit c || N.eqb c dot || N.eqb c 45.

Definition sanitizeFilename (filename : jsstring) : jsstring :=
  replace_all (Alt (Seq Bol (Chr (N.eqb underscore)))
                   (Seq (Chr (N.eqb underscore)) Eol)) []
    (replace_all (AtLeast 2 (Chr (N.eqb underscore))) [underscore]
       (replace_all (Chr (fun c => negb (filenameChar c))) [underscore]
                    filename)).

(** [MarkdownGenerator.escapeYaml]: every double quote becomes
    backslash-quote, then every line feed becomes backslash-n. *)
Definition escapeYaml (text : jsstring) : jsstring :=
  replace_all (Chr (N.eqb 10)) [92; 110]%N
    (replace_all (Chr (N.eqb 34)) [92; 34]%N text).
(** * Specification vocabulary *)

(** ** The line assembler *)

(** [near a b]: the test that let [b] join the line whose last item is
    [a].  For two numeric coordinates it is [|b.y - a.y| < 5]. *)
Definition near (a b : TextItem) : Prop := sameLine (item_y a) b = true.

Fixpoint chained (l : list TextItem) : Prop :=
  match l with
  | a :: (b :: _) as t => near a b /\ chained t
  | _ => True
  end.

(** What the loop guarantees for a line: it is not empty, its [y] is the
    [y] of its last item, and each item is [near] the next one. *)
Definition lineInv (l : Line) : Prop :=
  (exists it, last (line_items l) = Some it /\ line_y l = item_y it)
  /\ chained (line_items l).


(** A well-formed text item of the sample pages. *)
Definition textItem (s : string) (x y fontSize : Q) (bold : bool) : TextItem :=
  {| item_text := str s; item_x := Num x; item_y := Num y;
     item_width := Num 40; item_height := Num fontSize;
     item_fontName := str (if bold then "Helvetica-Bold" else "Helvetica");
     item_fontSize := Num fontSize; item_bold := bold; item_italic := false |}.

(** Three fragments of a slightly rising baseline, left to right. *)
Definition driftItems : list TextItem :=
  [ textItem "x" 0 100 10 false;
    textItem "2" 10 96 10 false;
    textItem "n" 20 92 10 false ].

(** ** The paragraph segmenter *)

Definition hasText (l : Line) : Prop := is_empty (trim (line_text l)) = false.

(** [cohesive first prev rest]: each line of [rest] has text and passes
    the three boundary tests against the line before it ([prev] for the
    head of [rest]) and against the first line of the paragraph. *)
Fixpoint cohesive (first prev : Line) (rest : list Line) : Prop :=
  match rest with
  | [] => True
  | l :: rest' =>
      isNewParagraph [first] (line_y prev) l = false /\ cohesive first l rest'
  end.

(** What the loop guarantees for a paragraph: it starts with a line that
    has text, its lines are cohesive, and its attributes are the ones
    [pushParagraph] derives from its lines. *)
Definition paraInv (p : Paragraph) : Prop :=
  match para_lines p with
  | [] => False
  | first :: rest =>
      hasText first /\ cohesive first first rest
      /\ pushParagraph [] (para_lines p) = [p]
  end.

(** The state of the loop: no open paragraph, or an open one that is
    cohesive and whose last line set [lastY]. *)
Definition openInv (cur : list Line) (lastY : jsnum) : Prop :=
  match cur with
  | [] => True
  | first :: rest =>
      hasText first /\ cohesive first first rest
      /\ (exists l, last cur = Some l /\ lastY = line_y l)
  end.

(** ** Scenario A: a numbered heading above three body lines *)

Definition scenarioA : list TextItem :=
  [ textItem "1. Introduction" 72 700 18 true;
    textItem "Structured documents are rebuilt" 72 650 10 false;
    textItem "from positioned fragments of text" 72 600 10 false;
    textItem "found on every page." 72 560 10 false ].

(** ** The table detector *)

(** The block left open by the grouping loop after the candidates
    [cands], started with the open block [cur]. *)
Fixpoint openTable (cands cur : list Candidate) : list Candidate :=
  match cands with
  | [] => cur
  | c :: rest =>
      match cur with
      | [] => openTable rest [c]
      | first :: _ =>
          if joinsTable cur first c then openTable rest (cur ++ [c])
          else openTable rest [c]
      end
  end.

(** [c] is refused by the block open when it is reached. *)
Definition refusedBy (cur : list Candidate) (c : Candidate) : Prop :=
  match cur with
  | [] => True
  | first :: _ => joinsTable cur first c = false
  end.

(** An isolated candidate: the block open after the candidates [before]
    refuses it, and the block it opens refuses the candidate that
    follows, if there is one. *)
Definition isolated (before : list Candidate) (c : Candidate)
    (after : list Candidate) : Prop :=
  refusedBy (openTable before []) c
  /\ match after with
     | [] => True
     | n :: _ => joinsTable [c] c n = false
     end.

Definition textLine (s : string) (y : Q) : Line :=
  {| line_y := Num y; line_items := []; line_text := str s;
     line_fontSize := Num 10; line_bold := false; line_italic := false |}.

(** Two table rows, a far-away lone row, and two more rows. *)
Definition tableLines : list Line :=
  [ textLine "Name     Qty     Price" 700;
    textLine "Bolt     12      0.40" 685;
    textLine "Total    Tax     Due" 500;
    textLine "Item     Unit    Cost" 300;
    textLine "Nut      8       0.10" 285 ].

(** ** The reading order *)



(** A raw item placed at [(x, y)] with font size [size]. *)
Definition rawItem (s : string) (x y size : Q) (font : string) : RawItem :=
  {| raw_str := str s;
     raw_transform := Some [Num size; Num 0; Num 0; Num size; Num x; Num y];
     raw_width := Num 40; raw_height := Num size;
     raw_fontName := Some (str font) |}.


(** Two ordinary pages. *)
Definition twoPages : list (list RawItem) :=
  [ [ rawItem "end of the first page" 72 100 10 "Helvetica" ];
    [ rawItem "top of the second page" 72 700 10 "Helvetica" ] ].

(** ** The outline *)

(** [inTree n t]: [n] is [t] or a node below [t]. *)
Inductive inTree (n : OutlineNode) : OutlineNode -> Prop :=
| inTree_here : inTree n n
| inTree_below (t c : OutlineNode) :
    In c (node_children t) -> inTree n c -> inTree n t.

(** In the tree [t], every child is strictly deeper than its parent. *)
Definition nestedTree (t : OutlineNode) : Prop :=
  forall n c, inTree n t -> In c (node_children n) ->
              (node_level n < node_level c)%Z.

(** The same on the store: the references on the stack are allocated,
    and every child reference leads to a strictly deeper item. *)
Definition storeInv (st : OutlineState) : Prop :=
  Forall (fun r => r < length (store st))%nat (stack st)
  /\ forall i it c,
       store st !! i = Some it -> In c (oi_children it) ->
       exists ch, store st !! c = Some ch /\ (oi_level it < oi_level ch)%Z.

Definition heading (s : string) (level : Z) (page y : Q) : Heading :=
  {| heading_text := str s; heading_level := level;
     heading_fontSize := Num 12; heading_bold := true;
     heading_y := Num y; heading_pageNumber := Num page |}.

(** A chapter with two sections, the second with a subsection, then a
    second chapter. *)
Definition sampleHeadings : list Heading :=
  [ heading "Chapter 1" 1 1 700;
    heading "1.1 Scope" 2 1 600;
    heading "1.2 Terms" 2 1 400;
    heading "1.2.1 Units" 3 2 700;
    heading "Chapter 2" 1 3 700 ].

Definition sampleContent (hs : list Heading) (ps : list Page) : Content :=
  {| pages := ps;
     structure := {| headings := hs; tables := []; lists := [] |} |}.

Definition scenarioA_paragraphs : list Paragraph :=
  paragraphs (processTextItems scenarioA).

Definition scenarioA_body : list jsstring :=
  [ str "Structured documents are rebuilt";
    str "from positioned fragments of text";
    str "found on every page." ].

(** ** Sections *)




(** One page: a heading, a body line, a smaller heading, a body line. *)
Definition nestedSections : list (list RawItem) :=
  [ [ rawItem "Overview" 72 700 18 "Helvetica-Bold";
      rawItem "First words." 72 660 10 "Helvetica";
      rawItem "Details" 72 620 14 "Helvetica-Bold";
      rawItem "More words." 72 580 10 "Helvetica" ] ].


(** ** Malformed tokens, list markers, cross-references *)

(** A fragment whose placement matrix stops before the [y] entry,
    between two well-formed fragments of one baseline. *)
Definition truncatedItem : RawItem :=
  {| raw_str := str "middle";
     raw_transform := Some [Num 10; Num 0; Num 0; Num 10; Num 100];
     raw_width := Num 40; raw_height := Num 10;
     raw_fontName := Some (str "Helvetica") |}.

Definition baselineItems : list RawItem :=
  [ rawItem "left" 72 700 10 "Helvetica";
    rawItem "right" 130 700 10 "Helvetica" ].

Definition malformedItems : list RawItem :=
  [ rawItem "left" 72 700 10 "Helvetica";
    truncatedItem;
    rawItem "right" 130 700 10 "Helvetica" ].

(** A one-line paragraph. *)
Definition textParagraph (s : string) (y : Q) : Paragraph :=
  {| para_lines := [textLine s y]; para_text := str s;
     para_fontSize := Num 10; para_bold := false; para_italic := false;
     para_y := Num y |}.

(** A page known by its raw text only. *)
Definition textPage (n : nat) (s : string) : Page :=
  {| page_pageNumber := num_of_nat n; page_textItems := [];
     page_content := {| lines := []; paragraphs := [] |};
     page_rawText := str s; page_error := false |}.

Definition annexPage : Page :=
  textPage 1 "The measurements that support this conclusion are listed in full on page 7 of the annex, together with the calibration notes.".

Definition nonNullY (it : TextItem) : Prop := item_y it <> Null.

Definition malformedTextItems : list TextItem :=
  match textItemsOf malformedItems with
  | Some l => l
  | None => []
  end.

(** ** Vocabulary of the further properties *)

(** Consecutive lines are separated: the first item of a line failed the
    same-line test against the [y] of the line before. *)
Fixpoint separatedLines (ls : list Line) : Prop :=
  match ls with
  | l1 :: (l2 :: _) as rest =>
      (forall it, head (line_items l2) = Some it ->
                  sameLine (line_y l1) it = false)
      /\ separatedLines rest
  | _ => True
  end.

Definition numericY (it : TextItem) : Prop := exists q, item_y it = Num q.

(** [line.text.trim() !== ''] *)
Definition hasTextb (l : Line) : bool := negb (is_empty (trim (line_text l))).

Definition driftLine : Line :=
  {| line_y := Num 92; line_items := driftItems; line_text := str "x 2 n";
     line_fontSize := Num 10; line_bold := false; line_italic := false |}.

(** A bold one-line paragraph whose items carried no font size. *)
Definition unsizedParagraph (s : string) (y : Q) : Paragraph :=
  {| para_lines := [textLine s y]; para_text := str s;
     para_fontSize := NaN; para_bold := true; para_italic := false;
     para_y := Num y |}.

(** The list item made from a paragraph, as [identifyLists] builds it. *)
Definition paragraphItem (p : Paragraph) : ListItem :=
  listItemOf (trim (para_text p)) (para_y p).

Definition isListParagraph (p : Paragraph) : bool :=
  isListItem (trim (para_text p)).

(** A block has a first item, whose [y] is the block's [y]. *)
Definition blockInv (l : ListBlock) : Prop :=
  exists first rest, list_items l = first :: rest /\ list_y l = li_y first.

Definition openItems (currentList : option ListBlock) : list ListItem :=
  match currentList with
  | Some l => list_items l
  | None => []
  end.

(** Consecutive rows are less than 30 units apart. *)
Fixpoint rowsClose (rows : list TableRow) : Prop :=
  match rows with
  | a :: (b :: _) as rest =>
      num_lt (Math_abs (num_sub (row_y b) (row_y a))) (Num 30) = true
      /\ rowsClose rest
  | _ => True
  end.

(** A candidate as [candidateOf] makes it. *)
Definition candidateInv (c : Candidate) : Prop :=
  cand_segmentCount c = length (cand_segments c)
  /\ (3 <= cand_segmentCount c)%nat.

(** The rows gathered so far: close to one another, and each within one
    segment of the first. *)
Definition blockRowsInv (cur : list Candidate) : Prop :=
  rowsClose (List.map rowOf cur)
  /\ match cur with
     | [] => True
     | first :: _ =>
         Forall (fun c => (Z.abs (Z.of_nat (cand_segmentCount c)
                                  - Z.of_nat (cand_segmentCount first)) <= 1)%Z)
                cur
     end.

(** What holds of an emitted table block. *)
Definition tableInv (t : TableBlock) : Prop :=
  exists first rest,
    table_rows t = first :: rest
    /\ table_columnCount t = length (row_segments first)
    /\ table_y t = row_y first
    /\ rowsClose (table_rows t)
    /\ Forall (fun r =>
                 (3 <= length (row_segments r))%nat
                 /\ (Z.abs (Z.of_nat (length (row_segments r))
                            - Z.of_nat (table_columnCount t)) <= 1)%Z)
              (table_rows t).

Definition node_text (n : OutlineNode) : jsstring :=
  match n with Node text _ _ _ => text end.

Definition node_pageNumber (n : OutlineNode) : jsnum :=
  match n with Node _ _ pageNumber _ => pageNumber end.

(** What an outline item copies from its heading. *)
Definition itemKey (it : OutlineItem) : jsstring * Z * jsnum :=
  (oi_text it, oi_level it, oi_pageNumber it).

Definition headingKey (h : Heading) : jsstring * Z * jsnum :=
  (heading_text h, heading_level h, heading_pageNumber h).

Definition nodeKey (n : OutlineNode) : jsstring * Z * jsnum :=
  (node_text n, node_level n, node_pageNumber n).

(** Every item of the store is attached: a root of the outline or a child
    of an earlier item; child references point forward, inside the
    store. *)
Definition attachInv (st : OutlineState) : Prop :=
  Forall (fun r => r < length (store st))%nat (stack st)
  /\ (forall r, In r (outline st) -> (r < length (store st))%nat)
  /\ (forall i it c,
        store st !! i = Some it -> In c (oi_children it) ->
        (i < c < length (store st))%nat)
  /\ (forall i, (i < length (store st))%nat ->
        In i (outline st)
        \/ exists j it, store st !! j = Some it /\ In i (oi_children it)).



(** No paragraph of the page is the start heading. *)
Definition noStart (h : Heading) (page : Page) : Prop :=
  Forall (fun p => sameParagraph p h = false) (paragraphs (page_content page)).


(** A string that is empty or opens with a character that is not white
    space. *)
Definition noLeadingSpace (s : jsstring) : Prop :=
  match s with
  | c :: _ => is_space c = false
  | [] => True
  end.

(** An item without a placement matrix. *)
Definition damagedItem : RawItem :=
  {| raw_str := str "lost"; raw_transform := None;
     raw_width := Num 40; raw_height := Num 10;
     raw_fontName := Some (str "Helvetica") |}.

Definition bulletParagraphs : list Paragraph :=
  [ textParagraph "-     Alpha" 700; textParagraph "- Beta" 680 ].

Definition numericSize (it : TextItem) : Prop :=
  exists q, item_fontSize it = Num q.

Definition pdfFile (name : string) (size : Z) : File :=
  {| file_name := str name; file_type := str "application/pdf";
     file_size := size |}.

(** A file is announced as a PDF by its type or by its name. *)
Definition looksLikePdf (file : File) : bool :=
  includes (str "pdf") (file_type file)
  || endsWith (str ".pdf") (toLowerCase (file_name file)).

(** The attributes [pushLine] derives from the items of a line. *)
Definition derivedLine (l : Line) : Prop :=
  line_text l = trim (join space (List.map item_text (line_items l)))
  /\ line_fontSize l = Math_max (List.map item_fontSize (line_items l))
  /\ line_bold l = existsb item_bold (line_items l)
  /\ line_italic l = existsb item_italic (line_items l).

(** The characters of a sanitized file name. *)
Definition safeChar (c : char) : Prop :=
  filenameChar c = true \/ c = underscore.

(** The escape of one character in a YAML string. *)
Definition yamlEscape (c : char) : jsstring :=
  if N.eqb 34 c then [92; 34]%N
  else if N.eqb 10 c then [92; 110]%N
  else [c].

(** * Properties *)

(** ** Comparisons on numbers *)

Lemma Qlt_bool_iff (p q : Q) : Qlt_bool p q = true <-> (p < q)%Q.
Proof.
  unfold Qlt_bool. rewrite negb_true_iff. split.
  - intros H. apply Qnot_le_lt. intros Hle.
    apply Qle_bool_iff in Hle. congruence.
  - intros H. destruct (Qle_bool q p) eqn:E; [|reflexivity].
    apply Qle_bool_iff in E. exfalso. eapply Qlt_not_le; eauto.
Qed.


Lemma num_lt_inv (a b : jsnum) :
  num_lt a b = true ->
  exists p q, toNumber a = Some p /\ toNumber b = Some q /\ (p < q)%Q.
Proof.
  unfold num_lt. destruct (toNumber a) as [p|]; [|discriminate].
  destruct (toNumber b) as [q|]; [|discriminate].
  intros H. exists p, q. repeat split. now apply Qlt_bool_iff.
Qed.

(** ** Array.prototype.sort rearranges its input *)

Lemma insert_sorted_perm {A} (cmp : A -> A -> jsnum) (a : A) (l : list A) :
  Permutation (a :: l) (insert_sorted cmp a l).
Proof.
  induction l as [|b l IH]; simpl; [reflexivity|].
  destruct (num_lt (cmp a b) (Num 0)); [reflexivity|].
  rewrite perm_swap. now apply perm_skip.
Qed.

Lemma Array_sort_perm {A} (cmp : A -> A -> jsnum) (l : list A) :
  Permutation l (Array_sort cmp l).
Proof.
  unfold Array_sort.
  assert (G : forall acc, Permutation (acc ++ l)
            (fold_left (fun acc a => insert_sorted cmp a acc) l acc)).
  { induction l as [|a l IH]; intros acc; simpl.
    - now rewrite app_nil_r.
    - rewrite <- IH, <- insert_sorted_perm. simpl.
      symmetry. apply Permutation_middle. }
  apply (G []).
Qed.

(** ** The line assembler *)

Lemma near_Num (a b : TextItem) (p q : Q) :
  item_y a = Num p -> item_y b = Num q ->
  near a b <-> (Qabs (q - p) < 5)%Q.
Proof.
  intros Ha Hb. unfold near, sameLine, Math_abs, num_sub, lift2.
  rewrite Ha, Hb. simpl. apply Qlt_bool_iff.
Qed.

Lemma chained_snoc (l : list TextItem) (a b : TextItem) :
  chained l -> last l = Some a -> near a b -> chained (l ++ [b]).
Proof.
  induction l as [|c l IH]; intros Hc Hl Hn; [discriminate|].
  destruct l as [|d l].
  - injection Hl as ->. simpl. auto.
  - destruct Hc as [Hcd Hc]. rewrite last_cons_cons in Hl.
    change ((c :: d :: l) ++ [b]) with (c :: ((d :: l) ++ [b])).
    specialize (IH Hc Hl Hn). simpl in *. auto.
Qed.

Lemma pushLine_inv (ls : list Line) (cy : jsnum) (cur : list TextItem) :
  Forall lineInv ls -> chained cur ->
  (forall it, last cur = Some it -> cy = item_y it) ->
  Forall lineInv (pushLine ls cy cur).
Proof.
  intros Hls Hc Hy. destruct cur as [|a cur]; [exact Hls|].
  unfold pushLine. apply Forall_app. split; [exact Hls|].
  constructor; [|constructor]. split; simpl; [|exact Hc].
  destruct (last (a :: cur)) as [it|] eqn:E.
  - exists it. split; [reflexivity|]. now apply Hy.
  - apply last_None in E. discriminate.
Qed.

(** The loop keeps [lineInv] for the lines pushed so far and for the
    line under construction. *)
Lemma groupItems_inv (sorted : list TextItem) :
  forall (ls : list Line) (cur : list TextItem) (cy : jsnum),
    Forall lineInv ls -> chained cur ->
    (forall it, last cur = Some it -> cy = item_y it) ->
    Forall lineInv (groupItems sorted ls cur cy).
Proof.
  induction sorted as [|item rest IH]; intros ls cur cy Hls Hc Hy; simpl.
  - now apply pushLine_inv.
  - destruct (sameLine cy item) eqn:E.
    + apply IH; [exact Hls| |].
      * destruct (last cur) as [a|] eqn:El.
        -- apply chained_snoc with a; [exact Hc|exact El|].
           unfold near. now rewrite <- (Hy a eq_refl).
        -- apply last_None in El. subst cur. exact I.
      * intros it. rewrite last_snoc. now intros [= ->].
    + apply IH.
      * now apply pushLine_inv.
      * exact I.
      * intros it [= ->]. reflexivity.
Qed.

(** The lines partition the sorted items, in order. *)
Lemma pushLine_items (ls : list Line) (cy : jsnum) (cur : list TextItem) :
  concat (List.map line_items (pushLine ls cy cur))
  = concat (List.map line_items ls) ++ cur.
Proof.
  destruct cur as [|a cur]; simpl; [now rewrite app_nil_r|].
  rewrite List.map_app, concat_app. simpl. now rewrite app_nil_r.
Qed.

Lemma groupItems_items (sorted : list TextItem) :
  forall (ls : list Line) (cur : list TextItem) (cy : jsnum),
    concat (List.map line_items (groupItems sorted ls cur cy))
    = concat (List.map line_items ls) ++ cur ++ sorted.
Proof.
  induction sorted as [|item rest IH]; intros ls cur cy; simpl.
  - now rewrite pushLine_items, app_nil_r.
  - destruct (sameLine cy item).
    + rewrite IH. now rewrite <- app_assoc.
    + rewrite IH, pushLine_items. now rewrite <- app_assoc.
Qed.

Lemma processTextItems_lines (items : list TextItem) :
  lines (processTextItems items)
  = groupItems (Array_sort compareItems items) [] [] Null.
Proof. destruct items; reflexivity. Qed.

(** On [driftItems] the comparator is a consistent ordering that agrees
    with the given order, so the sort leaves the items in place. *)
Lemma driftItems_sorted : Array_sort compareItems driftItems = driftItems.
Proof. reflexivity. Qed.

Lemma driftItems_line :
  List.map (fun l => (line_y l, List.map item_y (line_items l)))
           (lines (processTextItems driftItems))
  = [ (Num 92, [Num 100; Num 96; Num 92]) ].
Proof. reflexivity. Qed.


Lemma processTextItems_lineInv (items : list TextItem) (l : Line) :
  In l (lines (processTextItems items)) -> lineInv l.
Proof.
  rewrite processTextItems_lines. intros Hin.
  assert (H : Forall lineInv
                (groupItems (Array_sort compareItems items) [] [] Null)).
  { apply groupItems_inv; [constructor|exact I|discriminate]. }
  rewrite List.Forall_forall in H. now apply H.
Qed.



(** ** The paragraph segmenter *)

Lemma isNewParagraph_first (first : Line) (acc : list Line) (y : jsnum)
    (l : Line) :
  isNewParagraph (first :: acc) y l = isNewParagraph [first] y l.
Proof. reflexivity. Qed.

Lemma isNewParagraph_hasText (cur : list Line) (y : jsnum) (l : Line) :
  isNewParagraph cur y l = false -> hasText l.
Proof.
  unfold isNewParagraph, hasText. intros H.
  apply orb_false_iff in H as [H _]. now apply orb_false_iff in H as [_ H].
Qed.

Lemma cohesive_snoc (first : Line) (rest : list Line) :
  forall (prev l b : Line),
    cohesive first prev rest -> last (prev :: rest) = Some l ->
    isNewParagraph [first] (line_y l) b = false ->
    cohesive first prev (rest ++ [b]).
Proof.
  induction rest as [|c rest IH]; intros prev l b Hc Hl Hb.
  - injection Hl as ->. simpl. auto.
  - destruct Hc as [Hpc Hc]. rewrite last_cons_cons in Hl.
    simpl. split; [exact Hpc|]. now apply IH with l.
Qed.

(** Segmenting cohesive lines again: they all join the open paragraph. *)
Lemma groupLines_cohesive (rest : list Line) :
  forall (ps : list Paragraph) (first prev : Line) (acc : list Line),
    cohesive first prev rest ->
    groupLines rest ps (first :: acc) (line_y prev)
    = pushParagraph ps ((first :: acc) ++ rest).
Proof.
  induction rest as [|b rest IH]; intros ps first prev acc Hc.
  - now rewrite app_nil_r.
  - destruct Hc as [Hb Hc]. pose proof (isNewParagraph_hasText _ _ _ Hb) as Ht.
    cbn [groupLines]. rewrite isNewParagraph_first, Hb. cbn [andb].
    unfold hasText in Ht. rewrite Ht. cbn [negb].
    cbn [app]. rewrite (IH ps first b (acc ++ [b]) Hc).
    cbn [app]. now rewrite <- app_assoc.
Qed.

Lemma paraInv_resegment (p : Paragraph) :
  paraInv p -> groupLinesIntoParagraphs (para_lines p) = [p].
Proof.
  unfold paraInv. destruct (para_lines p) as [|first rest] eqn:E; [tauto|].
  intros (Ht & Hc & Hp). unfold groupLinesIntoParagraphs.
  cbn [groupLines]. unfold hasText in Ht.
  assert (Hn : isNewParagraph [] Null first && negb (is_empty (@nil Line))
               = false) by apply andb_false_r.
  rewrite Hn, Ht. cbn [negb app].
  rewrite (groupLines_cohesive rest [] first first [] Hc). exact Hp.
Qed.

Lemma pushParagraph_inv (ps : list Paragraph) (cur : list Line) (y : jsnum) :
  Forall paraInv ps -> openInv cur y -> Forall paraInv (pushParagraph ps cur).
Proof.
  intros Hps Hcur. destruct cur as [|first rest]; [exact Hps|].
  unfold pushParagraph. apply Forall_app. split; [exact Hps|].
  constructor; [|constructor]. destruct Hcur as (Ht & Hc & _).
  unfold paraInv. simpl. auto.
Qed.

Lemma groupLines_inv (ls : list Line) :
  forall (ps : list Paragraph) (cur : list Line) (lastY : jsnum),
    Forall paraInv ps -> openInv cur lastY ->
    Forall paraInv (groupLines ls ps cur lastY).
Proof.
  induction ls as [|l ls IH]; intros ps cur lastY Hps Hcur.
  - now apply pushParagraph_inv with lastY.
  - cbn [groupLines].
    destruct (isNewParagraph cur lastY l && negb (is_empty cur)) eqn:Ef.
    + (* the open paragraph is closed; [l] opens the next one if it has text *)
      apply IH; [now apply pushParagraph_inv with lastY|].
      destruct (is_empty (trim (line_text l))) eqn:Et; simpl; [exact I|].
      repeat split; eauto.
    + destruct cur as [|first rest].
      * destruct (is_empty (trim (line_text l))) eqn:Et; simpl.
        -- now apply IH.
        -- apply IH; [exact Hps|]. repeat split; eauto.
      * rewrite andb_true_r in Ef.
        pose proof (isNewParagraph_hasText _ _ _ Ef) as Ht.
        unfold hasText in Ht. rewrite Ht. cbn [negb].
        apply IH; [exact Hps|].
        destruct Hcur as (Hf & Hc & (l0 & Hl0 & ->)).
        change ((first :: rest) ++ [l]) with (first :: (rest ++ [l])).
        repeat split; [exact Hf| |].
        -- apply cohesive_snoc with l0; auto.
        -- exists l. split; [|reflexivity].
           change (first :: (rest ++ [l])) with ((first :: rest) ++ [l]).
           apply last_snoc.
Qed.

Lemma groupLinesIntoParagraphs_inv (ls : list Line) :
  Forall paraInv (groupLinesIntoParagraphs ls).
Proof.
  destruct ls as [|l ls]; [constructor|].
  unfold groupLinesIntoParagraphs. apply groupLines_inv; [constructor|exact I].
Qed.

(** C4: the paragraph segmenter is idempotent.  It is a function of the
    line sequence, so two runs on the same sequence agree; and segmenting
    the lines of any paragraph it produced gives back exactly that one
    paragraph, with the same lines and attributes. *)
Theorem C4_segmenter_idempotent (ls : list Line) (p : Paragraph) :
  In p (groupLinesIntoParagraphs ls) ->
  groupLinesIntoParagraphs (para_lines p) = [p].
Proof.
  intros Hin. apply paraInv_resegment.
  pose proof (groupLinesIntoParagraphs_inv ls) as H.
  rewrite List.Forall_forall in H. now apply H.
Qed.

Lemma C4_segmenter_idempotent_witness :
  exists p, In p (groupLinesIntoParagraphs (lines (processTextItems scenarioA)))
            /\ groupLinesIntoParagraphs (para_lines p) = [p].
Proof.
  eexists. split.
  - vm_compute. left. reflexivity.
  - apply (C4_segmenter_idempotent (lines (processTextItems scenarioA))).
    vm_compute. left. reflexivity.
Defined.

(** ** The table detector *)

Lemma pushTable_acc (tables : list TableBlock) (cur : list Candidate) :
  pushTable tables cur = tables ++ pushTable [] cur.
Proof.
  destruct cur as [|a [|b cur]]; simpl; now rewrite ?app_nil_r.
Qed.

Lemma groupTableLines_acc (cands : list Candidate) :
  forall (tables : list TableBlock) (cur : list Candidate),
    groupTableLines cands tables cur = tables ++ groupTableLines cands [] cur.
Proof.
  induction cands as [|c cands IH]; intros tables cur; simpl.
  - apply pushTable_acc.
  - destruct cur as [|first cur']; [apply IH|].
    destruct (joinsTable (first :: cur') first c); [apply IH|].
    rewrite IH, (IH (pushTable [] _)), pushTable_acc. now rewrite app_assoc.
Qed.

(** The length guard of [identifyTables] is subsumed by the loop. *)
Lemma identifyTables_loop (ls : list Line) :
  identifyTables ls = groupTableLines (potentialTableLines ls) [] [].
Proof.
  unfold identifyTables.
  destruct (potentialTableLines ls) as [|a [|b l]]; reflexivity.
Qed.

Lemma pushTable_rows (tables : list TableBlock) (cur : list Candidate) :
  Forall (fun t => 2 <= length (table_rows t))%nat tables ->
  Forall (fun t => 2 <= length (table_rows t))%nat (pushTable tables cur).
Proof.
  intros H. destruct cur as [|a [|b cur]]; try exact H.
  unfold pushTable. apply Forall_app. split; [exact H|].
  constructor; [|constructor]. simpl. lia.
Qed.

Lemma groupTableLines_rows (cands : list Candidate) :
  forall (tables : list TableBlock) (cur : list Candidate),
    Forall (fun t => 2 <= length (table_rows t))%nat tables ->
    Forall (fun t => 2 <= length (table_rows t))%nat
           (groupTableLines cands tables cur).
Proof.
  induction cands as [|c cands IH]; intros tables cur H; simpl.
  - now apply pushTable_rows.
  - destruct cur as [|first cur']; [now apply IH|].
    destruct (joinsTable (first :: cur') first c); apply IH; auto.
    now apply pushTable_rows.
Qed.

(** A candidate that nothing joins leaves no trace. *)
Lemma groupTableLines_lone (c : Candidate) (after : list Candidate)
    (tables : list TableBlock) :
  match after with
  | [] => True
  | n :: _ => joinsTable [c] c n = false
  end ->
  groupTableLines after tables [c] = groupTableLines after tables [].
Proof.
  destruct after as [|n after]; [reflexivity|].
  intros H. simpl. now rewrite H.
Qed.

Lemma groupTableLines_isolated (before : list Candidate) :
  forall (cur : list Candidate) (c : Candidate) (after : list Candidate),
    refusedBy (openTable before cur) c ->
    match after with
    | [] => True
    | n :: _ => joinsTable [c] c n = false
    end ->
    groupTableLines (before ++ c :: after) [] cur
    = groupTableLines before [] cur ++ groupTableLines after [] [].
Proof.
  induction before as [|b before IH]; intros cur c after Hr Ha.
  - cbn [app openTable] in *. cbn [groupTableLines].
    destruct cur as [|first cur'].
    + now rewrite groupTableLines_lone.
    + cbn [refusedBy] in Hr. rewrite Hr.
      rewrite groupTableLines_lone by exact Ha.
      now rewrite groupTableLines_acc.
  - cbn [app openTable groupTableLines] in *.
    destruct cur as [|first cur']; [now apply IH|].
    destruct (joinsTable (first :: cur') first b); [now apply IH|].
    rewrite groupTableLines_acc, (groupTableLines_acc before (pushTable [] _)).
    rewrite <- app_assoc. f_equal. now apply IH.
Qed.

Lemma potentialTableLines_app (l1 l2 : list Line) :
  potentialTableLines (l1 ++ l2)
  = potentialTableLines l1 ++ potentialTableLines l2.
Proof. apply omap_app. Qed.

Lemma potentialTableLines_cons (line : Line) (c : Candidate) (l : list Line) :
  candidateOf line = Some c ->
  potentialTableLines (line :: l) = c :: potentialTableLines l.
Proof.
  intros Hc. unfold potentialTableLines. simpl. now rewrite Hc.
Qed.

(** C10: every table block the detector emits has at least two rows, and
    an isolated table-row candidate produces no table block: the result
    is the one the lines before it and the lines after it give on their
    own. *)
Theorem C10_tables_two_rows (ls : list Line) :
  (forall t, In t (identifyTables ls) -> (2 <= length (table_rows t))%nat)
  /\ (forall l1 line l2 c,
        ls = l1 ++ line :: l2 -> candidateOf line = Some c ->
        isolated (potentialTableLines l1) c (potentialTableLines l2) ->
        identifyTables ls = identifyTables l1 ++ identifyTables l2).
Proof.
  split.
  - intros t Hin. rewrite identifyTables_loop in Hin.
    pose proof (groupTableLines_rows (potentialTableLines ls) [] []
                  (List.Forall_nil _)) as H.
    rewrite List.Forall_forall in H. now apply H.
  - intros l1 line l2 c -> Hc [Hr Ha].
    rewrite !identifyTables_loop, potentialTableLines_app.
    rewrite (potentialTableLines_cons _ _ _ Hc).
    now apply groupTableLines_isolated.
Qed.

Lemma C10_tables_two_rows_witness :
  (exists t, In t (identifyTables tableLines)
             /\ (2 <= length (table_rows t))%nat)
  /\ identifyTables tableLines
     = identifyTables (firstn 2 tableLines)
       ++ identifyTables (skipn 3 tableLines).
Proof.
  destruct (C10_tables_two_rows tableLines) as [Hrows Hlone]. split.
  - eexists. split; [vm_compute; left; reflexivity|].
    apply Hrows. vm_compute. left. reflexivity.
  - eapply (Hlone (firstn 2 tableLines) _ (skipn 3 tableLines)).
    + reflexivity.
    + vm_compute. reflexivity.
    + split; vm_compute; reflexivity.
Defined.

(** ** The reading order *)













(** ** The outline *)

Lemma popStack_suffix (s : list OutlineItem) (level : Z) (stk : list nat) :
  Forall (fun r => r < length s)%nat stk ->
  Forall (fun r => r < length s)%nat (popStack s level stk).
Proof.
  induction stk as [|top below IH]; intros H; simpl; [constructor|].
  destruct (s !! top) as [it|]; [|exact H].
  destruct (level <=? oi_level it)%Z; [|exact H].
  apply IH. now apply Forall_cons in H as [_ H].
Qed.

(** After the pops the top of the stack, if any, is strictly shallower
    than the heading being placed. *)
Lemma popStack_top (s : list OutlineItem) (level : Z) (stk : list nat)
    (top : nat) (below : list nat) :
  Forall (fun r => r < length s)%nat stk ->
  popStack s level stk = top :: below ->
  exists it, s !! top = Some it /\ (oi_level it < level)%Z.
Proof.
  induction stk as [|r stk IH]; intros H E; simpl in E; [discriminate|].
  apply Forall_cons in H as [Hr H].
  destruct (s !! r) as [it|] eqn:Er.
  - destruct (level <=? oi_level it)%Z eqn:El.
    + now apply IH.
    + injection E as <- <-. exists it. split; [exact Er|].
      apply Z.leb_gt in El. exact El.
  - apply lookup_ge_None in Er. lia.
Qed.

Lemma outlineStep_inv (st : OutlineState) (h : Heading) :
  storeInv st -> storeInv (outlineStep st h).
Proof.
  intros [Hstk Hnest]. unfold outlineStep.
  set (item := length (store st)).
  set (new := {| oi_text := heading_text h; oi_level := heading_level h;
                 oi_pageNumber := heading_pageNumber h; oi_children := [] |}).
  pose proof (popStack_suffix (store st) (heading_level h) (stack st) Hstk)
    as Hpop.
  destruct (popStack (store st) (heading_level h) (stack st))
    as [|top below] eqn:Epop.
  - split; simpl.
    + constructor; [|constructor]. rewrite length_app. simpl. lia.
    + intros i it c Hi Hc.
      destruct (decide (i < length (store st))%nat) as [Hlt|Hge].
      * rewrite lookup_app_l in Hi by exact Hlt.
        destruct (Hnest i it c Hi Hc) as (ch & Hch & Hlv).
        exists ch. split; [|exact Hlv].
        rewrite lookup_app_l; [exact Hch|]. now apply lookup_lt_Some in Hch.
      * rewrite lookup_app_r in Hi by lia.
        destruct (i - length (store st))%nat; simpl in Hi; [|discriminate].
        injection Hi as <-. destruct Hc.
  - destruct (popStack_top _ _ _ _ _ Hstk Epop) as (pt & Hpt & Hlv).
    assert (Htop : (top < item)%nat) by now apply lookup_lt_Some in Hpt.
    split; simpl.
    + rewrite length_alter, length_app. simpl.
      constructor; [lia|].
      eapply Forall_impl; [exact Hpop|]. simpl. intros; lia.
    + intros i it c Hi Hc.
      (* levels are not changed by [alter (addChild item) top] *)
      assert (Hlook : forall j x,
                (store st ++ [new]) !! j = Some x ->
                exists x', alter (addChild item) top (store st ++ [new]) !! j
                           = Some x' /\ oi_level x' = oi_level x).
      { intros j x Hj. destruct (decide (top = j)) as [->|Hne].
        - rewrite list_lookup_alter_eq, Hj. simpl.
          eexists. split; reflexivity.
        - rewrite list_lookup_alter_ne by exact Hne. now exists x. }
      assert (Hnew : (store st ++ [new]) !! item = Some new).
      { unfold item. now rewrite lookup_app_r, Nat.sub_diag by lia. }
      destruct (decide (top = i)) as [->|Hne].
      * rewrite list_lookup_alter_eq in Hi.
        rewrite lookup_app_l in Hi by exact Htop. rewrite Hpt in Hi.
        injection Hi as <-. simpl in Hc. apply in_app_iff in Hc as [Hc|Hc].
        -- destruct (Hnest i pt c Hpt Hc) as (ch & Hch & Hl).
           destruct (Hlook c ch) as (x' & Hx' & Hlx).
           { rewrite lookup_app_l; [exact Hch|].
             now apply lookup_lt_Some in Hch. }
           exists x'. split; [exact Hx'|]. simpl. lia.
        -- destruct Hc as [<-|[]].
           destruct (Hlook item new Hnew) as (x' & Hx' & Hlx).
           exists x'. split; [exact Hx'|]. simpl. rewrite Hlx. exact Hlv.
      * rewrite list_lookup_alter_ne in Hi by exact Hne.
        destruct (decide (i < length (store st))%nat) as [Hlt|Hge].
        -- rewrite lookup_app_l in Hi by exact Hlt.
           destruct (Hnest i it c Hi Hc) as (ch & Hch & Hl).
           destruct (Hlook c ch) as (x' & Hx' & Hlx).
           { rewrite lookup_app_l; [exact Hch|].
             now apply lookup_lt_Some in Hch. }
           exists x'. split; [exact Hx'|]. lia.
        -- rewrite lookup_app_r in Hi by lia.
           destruct (i - length (store st))%nat; simpl in Hi; [|discriminate].
           injection Hi as <-. destruct Hc.
Qed.

Lemma outlineLoop_inv (hs : list Heading) : storeInv (outlineLoop hs).
Proof.
  unfold outlineLoop.
  assert (G : forall st, storeInv st -> storeInv (fold_left outlineStep hs st)).
  { induction hs as [|h hs IH]; intros st Hst; simpl; [exact Hst|].
    apply IH. now apply outlineStep_inv. }
  apply G. split; simpl; [constructor|].
  intros i it c Hi. discriminate.
Qed.

Lemma nodesFrom_lookup (items : list OutlineItem) :
  forall (base k : nat) (node : OutlineNode),
    nodesFrom items base !! k = Some node ->
    exists it, items !! k = Some it /\ node_level node = oi_level it.
Proof.
  induction items as [|it items IH]; intros base k node H; [discriminate|].
  destruct k as [|k]; simpl in H.
  - injection H as <-. now exists it.
  - now apply IH with (S base).
Qed.

Lemma inTree_inv (n : OutlineNode) (text : jsstring) (level : Z)
    (page : jsnum) (children : list OutlineNode) :
  inTree n (Node text level page children) ->
  n = Node text level page children
  \/ exists c, In c children /\ inTree n c.
Proof.
  intros H. inversion H as [|t c Hc Hn]; subst; [now left|].
  right. now exists c.
Qed.

(** Reading the store back keeps the nesting: a node's children are
    nodes of later references, whose levels are those of the store. *)
Lemma nodesFrom_nested (items : list OutlineItem) :
  forall base : nat,
    (forall k it c,
        items !! k = Some it -> In c (oi_children it) ->
        (base + k < c)%nat ->
        exists ch, items !! (c - base)%nat = Some ch
                   /\ (oi_level it < oi_level ch)%Z) ->
    Forall nestedTree (nodesFrom items base).
Proof.
  induction items as [|it items IH]; intros base H; [constructor|].
  assert (Hlater : Forall nestedTree (nodesFrom items (S base))).
  { apply IH. intros k it' c Hk Hc Hlt.
    destruct (H (S k) it' c Hk Hc ltac:(lia)) as (ch & Hch & Hlv).
    exists ch. split; [|exact Hlv].
    replace (c - base)%nat with (S (c - S base)) in Hch by lia. exact Hch. }
  cbn [nodesFrom]. constructor; [|exact Hlater].
  intros n c Hn Hc. apply inTree_inv in Hn as [->|(c' & Hc' & Hn)].
  - cbn [node_children node_level] in *.
    apply list_elem_of_In, list_elem_of_omap in Hc as (r & Hr & Hf).
    apply list_elem_of_In in Hr.
    destruct (r <=? base)%nat eqn:Eb; [discriminate|].
    apply Nat.leb_gt in Eb.
    destruct (nodesFrom_lookup _ _ _ _ Hf) as (ch & Hch & ->).
    destruct (H 0%nat it r eq_refl Hr ltac:(lia)) as (ch' & Hch' & Hlv).
    replace (r - base)%nat with (S (r - S base)) in Hch' by lia.
    simpl in Hch'. congruence.
  - apply list_elem_of_In, list_elem_of_omap in Hc' as (r & _ & Hf).
    destruct (r <=? base)%nat; [discriminate|].
    apply list_elem_of_lookup_2, list_elem_of_In in Hf.
    rewrite List.Forall_forall in Hlater. now apply (Hlater c' Hf n c).
Qed.

Lemma forestOf_nested (st : OutlineState) :
  storeInv st -> Forall nestedTree (forestOf st).
Proof.
  intros [_ Hnest]. unfold forestOf.
  assert (H : Forall nestedTree (nodesFrom (store st) 0)).
  { apply nodesFrom_nested. intros k it c Hk Hc _.
    rewrite Nat.sub_0_r. now apply Hnest with k. }
  rewrite List.Forall_forall in H |- *. intros t Ht.
  apply list_elem_of_In, list_elem_of_omap in Ht as (r & _ & Hr).
  apply H. now apply list_elem_of_In, list_elem_of_lookup_2 with r.
Qed.

(** C3: in the outline built by the level-aware stack, every child of
    every node has a level strictly greater than the node's level. *)
Theorem C3_outline_nesting (content : Content) (root n c : OutlineNode) :
  In root (generateOutline content) -> inTree n root ->
  In c (node_children n) -> (node_level n < node_level c)%Z.
Proof.
  intros Hroot Hn Hc.
  pose proof (forestOf_nested _
    (outlineLoop_inv (Array_sort compareHeadings (headings (structure content)))))
    as H.
  rewrite List.Forall_forall in H. exact (H root Hroot n c Hn Hc).
Qed.

Lemma C3_outline_nesting_witness :
  exists root n c,
    In root (generateOutline (sampleContent sampleHeadings []))
    /\ inTree n root /\ In c (node_children n)
    /\ (node_level n < node_level c)%Z.
Proof.
  assert (H : exists root n c,
             In root (generateOutline (sampleContent sampleHeadings []))
             /\ inTree n root /\ In c (node_children n)
             /\ node_level n = 2%Z /\ node_level c = 3%Z).
  { eexists. eexists. eexists. split; [left; reflexivity|]. split.
    - eapply inTree_below; [right; left; reflexivity|apply inTree_here].
    - split; [left; reflexivity|]. split; reflexivity. }
  destruct H as (root & n & c & Hroot & Hn & Hc & _).
  exists root, n, c. repeat split; try assumption.
  exact (C3_outline_nesting _ root n c Hroot Hn Hc).
Defined.

(** ** Scenario A *)

(** The numbering pattern of [cleanHeadingText] takes the digits and
    leaves the dot that follows them. *)
Lemma scenarioA_cleanText :
  cleanHeadingText (str "1. Introduction") = str ". Introduction".
Proof. reflexivity. Qed.

(** C5, as stated, fails: the page of Scenario A does not yield a heading
    paragraph followed by one paragraph holding the three body lines. *)
Lemma C5_scenarioA_counterexample :
  ~ (exists h hp bp,
       identifyHeadings scenarioA_paragraphs = [h]
       /\ cleanHeadingText (heading_text h) = str "Introduction"
       /\ scenarioA_paragraphs = [hp; bp]
       /\ List.map line_text (para_lines bp) = scenarioA_body).
Proof.
  intros (h & hp & bp & _ & _ & Hp & _).
  apply (f_equal (@length Paragraph)) in Hp.
  vm_compute in Hp. discriminate.
Qed.

(** C5, amended: on the page of Scenario A the classifier produces
    exactly one heading, for the line "1. Introduction", whose level is 3
    on the ratio ladder (the page mean over the four paragraphs is 12, and
    18 exceeds 1.3 x 12 but not 1.5 x 12); the three body lines, 50 and 40
    units apart, form three separate one-line paragraphs. *)
Theorem C5_scenarioA_heading :
  (exists h,
     identifyHeadings scenarioA_paragraphs = [h]
     /\ heading_text h = str "1. Introduction"
     /\ heading_level h = 3%Z
     /\ heading_level h
        = headingLevel (Num 18) (averageFontSize scenarioA_paragraphs))
  /\ (exists q, averageFontSize scenarioA_paragraphs = Num q /\ (q == 12)%Q)
  /\ List.map (fun p => List.map line_text (para_lines p)) scenarioA_paragraphs
     = [str "1. Introduction"] :: List.map (fun t => [t]) scenarioA_body.
Proof.
  split; [|split].
  - eexists. split; [vm_compute; reflexivity|]. repeat split.
  - eexists. split; [vm_compute; reflexivity|]. reflexivity.
  - vm_compute. reflexivity.
Qed.

(** ** Sections *)


Section Scan.
Variables (startHeading : Heading) (endHeading : option Heading).


End Scan.





(** ** Malformed tokens *)

Lemma near_numeric (a b : TextItem) :
  near a b -> nonNullY a ->
  toNumber (item_y a) <> None /\ toNumber (item_y b) <> None.
Proof.
  unfold near, sameLine, nonNullY, num_lt, Math_abs, num_sub, lift2.
  intros H Hn.
  destruct (item_y a), (item_y b); simpl in H;
    try discriminate; try congruence; split; discriminate.
Qed.

(** In a line of two or more items without a [null] coordinate every
    [y] is a number. *)
Lemma chained_numeric (l : list TextItem) (a b : TextItem) :
  chained (a :: b :: l) -> Forall nonNullY (a :: b :: l) ->
  Forall (fun it => toNumber (item_y it) <> None) (a :: b :: l).
Proof.
  revert a b. induction l as [|c l IH]; intros a b [Hab Hc] Hn.
  - apply Forall_cons in Hn as [Ha _].
    destruct (near_numeric a b Hab Ha). repeat constructor; assumption.
  - apply Forall_cons in Hn as [Ha Hn].
    destruct (near_numeric a b Hab Ha) as [Hna _].
    constructor; [exact Hna|]. now apply IH.
Qed.

Lemma lines_items_perm (items : list TextItem) :
  Permutation items
    (concat (List.map line_items (lines (processTextItems items)))).
Proof.
  rewrite processTextItems_lines, groupItems_items. simpl.
  apply Array_sort_perm.
Qed.

Lemma line_items_input (items : list TextItem) (l : Line) (tok : TextItem) :
  In l (lines (processTextItems items)) -> In tok (line_items l) ->
  In tok items.
Proof.
  intros Hl Ht.
  apply (Permutation_in _ (Permutation_sym (lines_items_perm items))).
  apply in_concat. exists (line_items l). split; [|exact Ht].
  now apply in_map.
Qed.

(** C7, as stated, fails: the fragment without a [y] is not skipped.  It
    becomes a line of its own between its two neighbours, which no longer
    share a line, and its text is part of the paragraph; no error is
    raised for the page. *)
Lemma C7_malformed_token_counterexample :
  let page := extractPage 1 malformedItems in
  let clean := extractPage 1 baselineItems in
  page_error page = false
  /\ List.map line_text (lines (page_content page))
     = [str "left"; str "middle"; str "right"]
  /\ List.map line_text (lines (page_content clean)) = [str "left right"]
  /\ List.map para_text (paragraphs (page_content page))
     = [str "left middle right"]
  /\ lines (page_content page) <> lines (page_content clean)
  /\ paragraphs (page_content page) <> paragraphs (page_content clean).
Proof.
  repeat split; try (vm_compute; reflexivity); vm_compute; discriminate.
Qed.

(** C7, amended: a token whose [y] is missing is neither skipped nor
    reported, and raises no error.  The lines of a page hold every input
    token exactly once, and, when no coordinate is [null], a token without
    [y] is a line of its own; the grouping of its siblings can change. *)
Theorem C7_malformed_token_kept (items : list TextItem) :
  Permutation items
    (concat (List.map line_items (lines (processTextItems items))))
  /\ forall (l : Line) (tok : TextItem),
       Forall nonNullY items ->
       In l (lines (processTextItems items)) -> In tok (line_items l) ->
       item_y tok = Undefined -> line_items l = [tok].
Proof.
  split; [apply lines_items_perm|].
  intros l tok Hn Hl Ht Hy.
  destruct (processTextItems_lineInv items l Hl) as [_ Hc].
  assert (Hnl : Forall nonNullY (line_items l)).
  { rewrite List.Forall_forall in Hn |- *. intros it Hit.
    apply Hn. now apply line_items_input with l. }
  destruct (line_items l) as [|a [|b rest]].
  - destruct Ht.
  - destruct Ht as [->|[]]. reflexivity.
  - pose proof (chained_numeric rest a b Hc Hnl) as Hnum.
    rewrite List.Forall_forall in Hnum. specialize (Hnum tok Ht).
    rewrite Hy in Hnum. now elim Hnum.
Qed.

Lemma C7_malformed_token_kept_witness :
  Permutation malformedTextItems
    (concat (List.map line_items
               (lines (processTextItems malformedTextItems))))
  /\ exists l tok,
       In l (lines (processTextItems malformedTextItems))
       /\ In tok (line_items l) /\ item_y tok = Undefined
       /\ line_items l = [tok].
Proof.
  destruct (C7_malformed_token_kept malformedTextItems) as [Hperm Halone].
  split; [exact Hperm|].
  eexists. eexists.
  split; [vm_compute; right; left; reflexivity|].
  split; [vm_compute; left; reflexivity|].
  split; [vm_compute; reflexivity|].
  eapply Halone.
  - repeat constructor; vm_compute; discriminate.
  - vm_compute. right. left. reflexivity.
  - vm_compute. left. reflexivity.
  - vm_compute. reflexivity.
Defined.

(** ** List markers *)

(** C8 fails on the code: [identifyLists] tests the bullet, numbered and
    lettered patterns only.  A paragraph that opens with a roman numeral
    of two or more letters matches the declared pattern
    [listPatterns.roman] and is not made a list item. *)
Lemma C8_roman_marker_unrecognised :
  regex_test listPatterns_roman (str "ii. second item") = true
  /\ regex_test listPatterns_roman (str "IV) fourth item") = true
  /\ isListItem (str "ii. second item") = false
  /\ isListItem (str "IV) fourth item") = false
  /\ identifyLists [ textParagraph "ii. second item" 700;
                     textParagraph "IV) fourth item" 680 ] = [].
Proof. repeat split; vm_compute; reflexivity. Qed.

(** ** Cross-references *)

Lemma trimStart_length (s : jsstring) :
  (length (trimStart s) <= length s)%nat.
Proof.
  induction s as [|c s IH]; simpl; [lia|].
  destruct (is_space c); simpl; lia.
Qed.

Lemma trim_length (s : jsstring) : (length (trim s) <= length s)%nat.
Proof.
  unfold trim, trimEnd. rewrite length_rev.
  etransitivity; [apply trimStart_length|].
  rewrite length_rev. apply trimStart_length.
Qed.

Lemma extractContext_nat (text : jsstring) (i : nat) :
  extractContext text (Z.of_nat i) 50
  = trim (slice text (i - 50) (Nat.min (length text) (i + 50))).
Proof.
  unfold extractContext. f_equal. f_equal; lia.
Qed.

Lemma execAll_In (fuel : nat) (pattern : regex) (text : jsstring) :
  forall (lastIndex : nat) (m : rmatch_result),
    In m (execAll fuel pattern text lastIndex) ->
    exists from, regex_exec pattern text from = Some m.
Proof.
  induction fuel as [|fuel IH]; intros lastIndex m H; [destruct H|].
  simpl in H. destruct (regex_exec pattern text lastIndex) as [m0|] eqn:E;
    [|destruct H].
  destruct H as [<-|H]; [now exists lastIndex|]. now apply IH with (m_end m0).
Qed.

(** C9, as stated, fails: for the reference "page 7" found at index 68
    of the 125 characters of [annexPage], the recorded context has 100
    characters, the 50 before the start of the match and the 50 from it
    on. *)
Lemma C9_context_width_counterexample :
  exists r,
    findCrossReferences (sampleContent [] [annexPage]) = [r]
    /\ ref_fullMatch r = str "page 7"
    /\ length (ref_context r) = 100%nat
    /\ ref_context r = slice (page_rawText annexPage) 18 118.
Proof.
  eexists. split; [vm_compute; reflexivity|].
  repeat split; vm_compute; reflexivity.
Qed.

(** C9, amended: for every cross-reference match found in a page's raw
    text, the recorded context is the text from 50 characters before the
    index where the match starts to 50 characters after that index,
    clipped at the boundaries of the text and then trimmed of white
    space: a window of at most 100 characters around the start of the
    match, not a 50-character window centred on the match. *)
Theorem C9_context_window (content : Content) (r : CrossReference) :
  In r (findCrossReferences content) ->
  exists page t from m,
    In page (pages content)
    /\ regex_exec (refPattern t) (page_rawText page) from = Some m
    /\ ref_fullMatch r = slice (page_rawText page) (m_index m) (m_end m)
    /\ ref_context r
       = trim (slice (page_rawText page) (m_index m - 50)
                     (Nat.min (length (page_rawText page)) (m_index m + 50)))
    /\ (length (ref_context r) <= 100)%nat.
Proof.
  unfold findCrossReferences. intros H.
  apply in_flat_map in H as (page & Hpage & H).
  unfold pageReferences in H. apply in_flat_map in H as (t & _ & H).
  apply in_map_iff in H as (m & <- & Hm).
  apply execAll_In in Hm as (from & Hm).
  exists page, t, from, m. split; [exact Hpage|]. split; [exact Hm|].
  split; [reflexivity|].
  cbn [ref_context referenceOf]. rewrite extractContext_nat.
  split; [reflexivity|].
  etransitivity; [apply trim_length|]. unfold slice.
  etransitivity; [apply List.firstn_le_length|]. lia.
Qed.

Lemma C9_context_window_witness :
  exists r m,
    In r (findCrossReferences (sampleContent [] [annexPage]))
    /\ regex_exec (refPattern ref_page) (page_rawText annexPage) 0 = Some m
    /\ m_index m = 68%nat
    /\ (length (ref_context r) <= 100)%nat.
Proof.
  eexists. eexists.
  split; [vm_compute; left; reflexivity|].
  split; [vm_compute; reflexivity|].
  split; [reflexivity|].
  edestruct (C9_context_window (sampleContent [] [annexPage]))
    as (page & t & from & m & _ & _ & _ & _ & Hlen);
    [vm_compute; left; reflexivity|].
  exact Hlen.
Defined.

(** * Further properties of the code *)

(** ** The line assembler: runs of the sorted items *)


Lemma separatedLines_snoc (ls : list Line) (l1 l2 : Line) :
  separatedLines ls -> last ls = Some l1 ->
  (forall it, head (line_items l2) = Some it ->
              sameLine (line_y l1) it = false) ->
  separatedLines (ls ++ [l2]).
Proof.
  induction ls as [|a ls IH]; intros Hs Hl H; [discriminate|].
  destruct ls as [|b ls].
  - injection Hl as ->. simpl. auto.
  - destruct Hs as [Hab Hs]. rewrite last_cons_cons in Hl.
    change ((a :: b :: ls) ++ [l2]) with (a :: ((b :: ls) ++ [l2])).
    specialize (IH Hs Hl H). simpl in *. auto.
Qed.

(** The state of the grouping loop: the pushed lines are separated, the
    line under construction starts with an item that failed the test
    against the last pushed line, and it is empty only before the first
    item. *)
Lemma groupItems_separated (sorted : list TextItem) :
  forall (ls : list Line) (cur : list TextItem) (cy : jsnum),
    separatedLines ls ->
    (forall l1 it, last ls = Some l1 -> head cur = Some it ->
                   sameLine (line_y l1) it = false) ->
    (cur = [] -> ls = []) ->
    separatedLines (groupItems sorted ls cur cy).
Proof.
  assert (Hpush : forall ls cur cy,
             separatedLines ls ->
             (forall l1 it, last ls = Some l1 -> head cur = Some it ->
                            sameLine (line_y l1) it = false) ->
             separatedLines (pushLine ls cy cur)).
  { intros ls cur cy Hs Hh. destruct cur as [|a cur]; [exact Hs|].
    unfold pushLine. destruct (last ls) as [l1|] eqn:El.
    - apply separatedLines_snoc with l1; [exact Hs|exact El|].
      simpl. intros it [= <-]. now apply Hh.
    - apply last_None in El. subst ls. exact I. }
  induction sorted as [|item rest IH]; intros ls cur cy Hs Hh He; simpl.
  - now apply Hpush.
  - destruct (sameLine cy item) eqn:E.
    + apply IH; [exact Hs| |].
      * intros l1 it Hl Hit. destruct cur as [|a cur].
        -- rewrite (He eq_refl) in Hl. discriminate.
        -- apply Hh; [exact Hl|exact Hit].
      * intros Hnil. now apply app_eq_nil in Hnil as [_ Hnil].
    + apply IH.
      * now apply Hpush.
      * intros l1 it Hl [= <-]. destruct cur as [|a cur].
        -- rewrite (He eq_refl) in Hl. discriminate.
        -- unfold pushLine in Hl. rewrite last_snoc in Hl.
           injection Hl as <-. exact E.
      * discriminate.
Qed.

(** X2: the lines are maximal: the first item of every line but the
    first failed the same-line test against the [y] of the line before
    it. *)
Theorem lines_separated (items : list TextItem) :
  separatedLines (lines (processTextItems items)).
Proof.
  rewrite processTextItems_lines.
  apply groupItems_separated; [exact I|discriminate|reflexivity].
Qed.

Lemma chained_suffix (pre l : list TextItem) :
  chained (pre ++ l) -> chained l.
Proof.
  induction pre as [|a pre IH]; [auto|]. intros H. apply IH.
  destruct pre as [|b pre]; simpl in *.
  - destruct l; [exact I|]. now destruct H.
  - now destruct H.
Qed.

Lemma chained_drift (post : list TextItem) :
  forall (tok lst : TextItem) (p q : Q),
    chained (tok :: post) -> Forall numericY (tok :: post) ->
    last (tok :: post) = Some lst ->
    item_y tok = Num p -> item_y lst = Num q ->
    (Qabs (p - q) <= 5 * inject_Z (Z.of_nat (length post)))%Q.
Proof.
  induction post as [|b post IH]; intros tok lst p q Hc Hn Hl Hp Hq.
  - injection Hl as <-. rewrite Hp in Hq. injection Hq as <-.
    cbn [length]. change (inject_Z (Z.of_nat 0)) with 0%Q.
    apply Qabs_Qle_condition. split; lra.
  - destruct Hc as [Hab Hc]. apply Forall_cons in Hn as [_ Hn].
    pose proof Hn as Hn'. apply Forall_cons in Hn' as [[r Hr] _].
    rewrite last_cons_cons in Hl.
    specialize (IH b lst r q Hc Hn Hl Hr Hq).
    apply (near_Num tok b p r Hp Hr) in Hab.
    cbn [length]. rewrite Nat2Z.inj_succ, <- Z.add_1_r, inject_Z_plus.
    apply Qabs_Qlt_condition in Hab. apply Qabs_Qle_condition in IH.
    apply Qabs_Qle_condition. change (inject_Z 1) with 1%Q.
    destruct Hab, IH. split; lra.
Qed.

(** X3: how far a token can be from its line: when the items of a line
    all have a numeric [y], a member followed by [n] more members differs
    from [line.y] by at most [5 n]; the last member defines [line.y]. *)
Theorem line_drift_bound (items : list TextItem) (l : Line)
    (pre post : list TextItem) (tok : TextItem) :
  In l (lines (processTextItems items)) ->
  line_items l = pre ++ tok :: post ->
  Forall numericY (line_items l) ->
  exists p q, item_y tok = Num p /\ line_y l = Num q
              /\ (Qabs (p - q) <= 5 * inject_Z (Z.of_nat (length post)))%Q.
Proof.
  intros Hl Hitems Hnum.
  destruct (processTextItems_lineInv items l Hl) as [(lst & Hlast & Hy) Hc].
  rewrite Hitems in Hlast, Hc, Hnum.
  apply chained_suffix in Hc. apply Forall_app in Hnum as [_ Hnum].
  rewrite last_app_cons in Hlast.
  pose proof Hnum as Hn'. apply Forall_cons in Hn' as [[p Hp] _].
  assert (Hq : numericY lst).
  { rewrite List.Forall_forall in Hnum. apply Hnum.
    now apply list_elem_of_In, last_Some_elem_of. }
  destruct Hq as [q Hq]. exists p, q. rewrite Hy.
  repeat split; try assumption.
  now apply chained_drift with tok lst.
Qed.

Lemma line_drift_bound_witness :
  In driftLine (lines (processTextItems driftItems))
  /\ exists p q,
       item_y (textItem "x" 0 100 10 false) = Num p
       /\ line_y driftLine = Num q
       /\ (Qabs (p - q) <= 5 * inject_Z (Z.of_nat 2))%Q.
Proof.
  assert (Hin : In driftLine (lines (processTextItems driftItems)))
    by (vm_compute; left; reflexivity).
  split; [exact Hin|].
  apply (line_drift_bound driftItems driftLine []
           [textItem "2" 10 96 10 false; textItem "n" 20 92 10 false]
           (textItem "x" 0 100 10 false) Hin eq_refl).
  repeat constructor; eexists; reflexivity.
Defined.

(** ** The paragraph segmenter: what the paragraphs hold *)

Lemma pushParagraph_lines (ps : list Paragraph) (cur : list Line) :
  concat (List.map para_lines (pushParagraph ps cur))
  = concat (List.map para_lines ps) ++ cur.
Proof.
  destruct cur as [|a cur]; simpl; [now rewrite app_nil_r|].
  rewrite List.map_app, concat_app. simpl. now rewrite app_nil_r.
Qed.

Lemma groupLines_lines (ls : list Line) :
  forall (ps : list Paragraph) (cur : list Line) (lastY : jsnum),
    concat (List.map para_lines (groupLines ls ps cur lastY))
    = concat (List.map para_lines ps) ++ cur ++ List.filter hasTextb ls.
Proof.
  induction ls as [|l ls IH]; intros ps cur lastY.
  - simpl. now rewrite pushParagraph_lines, app_nil_r.
  - cbn [groupLines List.filter]. rewrite IH. unfold hasTextb at 2.
    destruct (isNewParagraph cur lastY l && negb (is_empty cur));
      destruct (negb (is_empty (trim (line_text l))));
      rewrite ?pushParagraph_lines, ?app_nil_r, <- ?app_assoc; reflexivity.
Qed.

(** X4: the paragraphs of a page hold, in order, exactly the lines that
    have text; lines that are empty after trimming are separators and
    belong to no paragraph. *)
Theorem paragraphs_concat_lines (ls : list Line) :
  concat (List.map para_lines (groupLinesIntoParagraphs ls))
  = List.filter hasTextb ls.
Proof.
  destruct ls as [|l ls]; [reflexivity|].
  unfold groupLinesIntoParagraphs. now rewrite groupLines_lines.
Qed.

Lemma cohesive_lookup (first : Line) (rest : list Line) :
  forall (prev : Line) (i : nat) (a b : Line),
    cohesive first prev rest ->
    (prev :: rest) !! i = Some a -> (prev :: rest) !! S i = Some b ->
    isNewParagraph [first] (line_y a) b = false.
Proof.
  induction rest as [|c rest IH]; intros prev i a b Hc Ha Hb.
  - destruct i; discriminate.
  - destruct Hc as [Hpc Hc]. destruct i as [|i].
    + injection Ha as <-. injection Hb as <-. exact Hpc.
    + now apply IH with c i.
Qed.

Lemma num_gt_false_Num (p q : Q) :
  num_gt (Num p) (Num q) = false -> (p <= q)%Q.
Proof.
  unfold num_gt, num_lt, Qlt_bool. simpl. intros H.
  apply negb_false_iff in H. now apply Qle_bool_iff.
Qed.

(** X5: a paragraph never spans a boundary.  Its first line has text;
    two consecutive lines with numeric [y] are at most 20 units apart;
    the font size of every later line, when numeric, differs by at most 2
    from the font size of the first line; and its [y], font size and
    styles are those of its first line. *)
Theorem paragraph_cohesion (ls : list Line) (p : Paragraph) :
  In p (groupLinesIntoParagraphs ls) ->
  exists first rest,
    para_lines p = first :: rest
    /\ para_y p = line_y first /\ para_fontSize p = line_fontSize first
    /\ para_bold p = line_bold first /\ para_italic p = line_italic first
    /\ Forall (fun l => hasTextb l = true) (para_lines p)
    /\ (forall i a b ya yb,
          para_lines p !! i = Some a -> para_lines p !! S i = Some b ->
          line_y a = Num ya -> line_y b = Num yb ->
          (Qabs (ya - yb) <= 20)%Q)
    /\ (forall b fb ff,
          In b rest -> line_fontSize b = Num fb ->
          line_fontSize first = Num ff -> (Qabs (fb - ff) <= 2)%Q).
Proof.
  intros Hin. pose proof (groupLinesIntoParagraphs_inv ls) as H.
  rewrite List.Forall_forall in H. specialize (H p Hin).
  unfold paraInv in H.
  destruct (para_lines p) as [|first rest] eqn:E; [destruct H|].
  destruct H as (Ht & Hc & Hp). exists first, rest.
  assert (Hlook : forall i a b,
            (first :: rest) !! i = Some a -> (first :: rest) !! S i = Some b ->
            isNewParagraph [first] (line_y a) b = false)
    by (intros i a b; now apply cohesive_lookup).
  unfold pushParagraph in Hp. simpl in Hp. injection Hp as Hp.
  split; [reflexivity|].
  rewrite <- Hp; simpl. repeat split.
  - constructor.
    + unfold hasTextb. unfold hasText in Ht. now rewrite Ht.
    + rewrite List.Forall_forall. intros b Hb.
      apply list_elem_of_In, list_elem_of_lookup_1 in Hb as [j Hj].
      destruct (lookup_lt_is_Some_2 (first :: rest) j) as [a Ha].
      { apply lookup_lt_Some in Hj. simpl. lia. }
      specialize (Hlook j a b Ha Hj).
      apply isNewParagraph_hasText in Hlook.
      unfold hasTextb. unfold hasText in Hlook. now rewrite Hlook.
  - intros i a b ya yb Ha Hb Hya Hyb.
    specialize (Hlook i a b Ha Hb). unfold isNewParagraph in Hlook.
    apply orb_false_iff in Hlook as [Hlook _].
    apply orb_false_iff in Hlook as [Hlook _].
    rewrite Hya, Hyb in Hlook. now apply num_gt_false_Num in Hlook.
  - intros b fb ff Hb Hfb Hff.
    apply list_elem_of_In, list_elem_of_lookup_1 in Hb as [j Hj].
    destruct (lookup_lt_is_Some_2 (first :: rest) j) as [a Ha].
    { apply lookup_lt_Some in Hj. simpl. lia. }
    specialize (Hlook j a b Ha Hj). unfold isNewParagraph in Hlook.
    apply orb_false_iff in Hlook as [_ Hlook].
    rewrite Hfb, Hff in Hlook. now apply num_gt_false_Num in Hlook.
Qed.

Lemma paragraph_cohesion_witness :
  exists p,
    In p (groupLinesIntoParagraphs tableLines)
    /\ exists first rest,
         para_lines p = first :: rest /\ para_y p = line_y first.
Proof.
  eexists. split; [vm_compute; left; reflexivity|].
  edestruct (paragraph_cohesion tableLines) as (first & rest & H1 & H2 & _);
    [vm_compute; left; reflexivity|].
  exists first, rest. split; [exact H1|exact H2].
Defined.

(** ** The heading classifier *)

Lemma identifyHeadings_In (ps : list Paragraph) (h : Heading) :
  In h (identifyHeadings ps) ->
  exists p, In p ps /\ headingOf (averageFontSize ps) p = Some h.
Proof.
  unfold identifyHeadings. destruct ps as [|p0 ps]; [intros []|].
  intros H. apply list_elem_of_In, list_elem_of_omap in H as (p & Hp & Hh).
  exists p. split; [now apply list_elem_of_In|exact Hh].
Qed.

Lemma headingLevel_range (fontSize avg : jsnum) :
  (1 <= headingLevel fontSize avg <= 5)%Z.
Proof.
  unfold headingLevel.
  repeat match goal with |- context [if ?b then _ else _] => destruct b end;
    lia.
Qed.

Lemma identifyHeadings_source (ps : list Paragraph) (h : Heading) :
  In h (identifyHeadings ps) ->
  (1 <= heading_level h <= 5)%Z
  /\ (length (heading_text h) < 100)%nat
  /\ exists p,
       In p ps
       /\ heading_text h = trim (para_text p)
       /\ heading_y h = para_y p
       /\ heading_fontSize h = para_fontSize p
       /\ heading_level h
          = headingLevel (para_fontSize p) (averageFontSize ps)
       /\ (para_bold p = true
           \/ num_gt (para_fontSize p)
                     (num_mul (averageFontSize ps) (Num (12 # 10))) = true
           \/ regex_test headingShape (trim (para_text p)) = true).
Proof.
  intros H. apply identifyHeadings_In in H as (p & Hp & Hh).
  unfold headingOf in Hh.
  destruct ((num_gt (para_fontSize p)
               (num_mul (averageFontSize ps) (Num (12 # 10)))
             || para_bold p
             || regex_test headingShape (trim (para_text p)))
            && (length (para_text p) <? 100)%nat) eqn:E; [|discriminate].
  injection Hh as <-. apply andb_true_iff in E as [Hwhy Hshort].
  apply Nat.ltb_lt in Hshort. cbn [heading_level heading_text heading_y
                                    heading_fontSize].
  split; [apply headingLevel_range|]. split.
  - eapply Nat.le_lt_trans; [apply trim_length|exact Hshort].
  - exists p. repeat split; try assumption.
    apply orb_true_iff in Hwhy as [Hwhy|Hwhy]; [|now right; right].
    apply orb_true_iff in Hwhy as [Hwhy|Hwhy]; [now right; left|now left].
Qed.


Lemma num_gt_mono (p q : Q) (t : jsnum) :
  (p <= q)%Q -> num_gt (Num p) t = true -> num_gt (Num q) t = true.
Proof.
  unfold num_gt, num_lt. simpl. destruct (toNumber t) as [r|]; [|discriminate].
  rewrite !Qlt_bool_iff. intros; lra.
Qed.

(** X7: the level ladder is monotone: against the same page mean, a
    larger font size never gets a deeper level. *)
Theorem headingLevel_monotone (f1 f2 : Q) (avg : jsnum) :
  (f1 <= f2)%Q ->
  (headingLevel (Num f2) avg <= headingLevel (Num f1) avg)%Z.
Proof.
  intros Hle. unfold headingLevel.
  pose proof (fun t => num_gt_mono f1 f2 t Hle) as Hm.
  repeat match goal with
         | |- context [num_gt (Num f1) ?t] =>
             let E := fresh "E" in
             pose proof (Hm t) as E;
             destruct (num_gt (Num f1) t);
             [rewrite (E eq_refl)|clear E]
         end;
  repeat match goal with |- context [if ?b then _ else _] => destruct b end;
  lia.
Qed.

Lemma filter_none {A} (f : A -> bool) (l : list A) :
  Forall (fun a => f a = false) l -> List.filter f l = [].
Proof.
  induction 1 as [|a l Ha _ IH]; simpl; [reflexivity|]. now rewrite Ha.
Qed.

Lemma headingLevel_NaN (fontSize : jsnum) : headingLevel fontSize NaN = 5%Z.
Proof.
  unfold headingLevel, num_gt, num_lt, num_mul, lift2. simpl.
  now destruct (toNumber fontSize).
Qed.

(** X8: a page without any positive font size has no mean ([0 / 0]):
    font size then plays no part, a heading is a short paragraph that is
    bold or heading-shaped, and every heading gets level 5. *)
Theorem headings_without_mean (ps : list Paragraph) (h : Heading) :
  Forall (fun p => num_gt (para_fontSize p) (Num 0) = false) ps ->
  In h (identifyHeadings ps) ->
  averageFontSize ps = NaN
  /\ heading_level h = 5%Z
  /\ exists p, In p ps /\ heading_text h = trim (para_text p)
               /\ (para_bold p = true
                   \/ regex_test headingShape (trim (para_text p)) = true).
Proof.
  intros Hall Hin.
  assert (Havg : averageFontSize ps = NaN).
  { unfold averageFontSize. rewrite filter_none; [reflexivity|].
    rewrite List.Forall_forall in Hall |- *. intros s Hs.
    apply in_map_iff in Hs as (p & <- & Hp). now apply Hall. }
  split; [exact Havg|].
  destruct (identifyHeadings_source ps h Hin)
    as (_ & _ & p & Hp & Ht & _ & _ & Hl & Hwhy).
  rewrite Havg in Hl, Hwhy. rewrite headingLevel_NaN in Hl.
  split; [exact Hl|]. exists p. repeat split; try assumption.
  destruct Hwhy as [Hb|[Hg|Hs]]; [now left| |now right].
  unfold num_gt, num_lt, num_mul, lift2 in Hg. simpl in Hg. discriminate.
Qed.


Lemma headingLevel_monotone_witness :
  (10 <= 18)%Q
  /\ (headingLevel (Num 18) (Num 12) <= headingLevel (Num 10) (Num 12))%Z.
Proof.
  assert (H : (10 <= 18)%Q) by (vm_compute; discriminate).
  split; [exact H|]. exact (headingLevel_monotone 10 18 (Num 12) H).
Defined.

Lemma headings_without_mean_witness :
  exists h,
    In h (identifyHeadings [unsizedParagraph "Summary" 700])
    /\ averageFontSize [unsizedParagraph "Summary" 700] = NaN
    /\ heading_level h = 5%Z.
Proof.
  eexists. split; [vm_compute; left; reflexivity|].
  edestruct (headings_without_mean [unsizedParagraph "Summary" 700])
    as (Havg & Hlevel & _).
  - repeat constructor.
  - vm_compute. left. reflexivity.
  - split; [exact Havg|exact Hlevel].
Defined.

(** ** The list recognizer *)

Lemma identifyLists_loop_items (ps : list Paragraph) :
  forall (ls : list ListBlock) (cur : option ListBlock),
    concat (List.map list_items (identifyLists_loop ps ls cur))
    = concat (List.map list_items ls) ++ openItems cur
      ++ List.map paragraphItem (List.filter isListParagraph ps).
Proof.
  assert (Hpush : forall ls cur,
             concat (List.map list_items (pushList ls cur))
             = concat (List.map list_items ls) ++ openItems cur).
  { intros ls [l|]; simpl; [|now rewrite app_nil_r].
    rewrite List.map_app, concat_app. simpl. now rewrite app_nil_r. }
  induction ps as [|p ps IH]; intros ls cur.
  - simpl. now rewrite Hpush, app_nil_r.
  - cbn [identifyLists_loop].
    replace (List.filter isListParagraph (p :: ps))
      with (if isListItem (trim (para_text p))
            then p :: List.filter isListParagraph ps
            else List.filter isListParagraph ps) by reflexivity.
    destruct (isListItem (trim (para_text p))) eqn:E.
    + destruct cur as [l|]; [|rewrite IH; reflexivity].
      destruct (negb (ListType_eqb (list_type l)
                                   (listTypeOf (trim (para_text p))))).
      * rewrite IH, List.map_app, concat_app. simpl.
        now rewrite app_nil_r, <- !app_assoc.
      * rewrite IH. simpl. now rewrite <- !app_assoc.
    + rewrite IH, Hpush. simpl. now rewrite <- app_assoc.
Qed.

Lemma identifyLists_loop_inv (ps : list Paragraph) :
  forall (ls : list ListBlock) (cur : option ListBlock),
    Forall blockInv ls ->
    (forall l, cur = Some l -> blockInv l) ->
    Forall blockInv (identifyLists_loop ps ls cur).
Proof.
  assert (Hpush : forall ls cur,
             Forall blockInv ls -> (forall l, cur = Some l -> blockInv l) ->
             Forall blockInv (pushList ls cur)).
  { intros ls [l|] Hls Hcur; simpl; [|exact Hls].
    apply Forall_app. split; [exact Hls|]. constructor; [|constructor].
    now apply Hcur. }
  assert (Hadd : forall l it, blockInv l -> blockInv (addItem l it)).
  { intros l it (first & rest & Hi & Hy). exists first, (rest ++ [it]).
    simpl. rewrite Hi. split; [reflexivity|exact Hy]. }
  induction ps as [|p ps IH]; intros ls cur Hls Hcur.
  - now apply Hpush.
  - cbn [identifyLists_loop].
    destruct (isListItem (trim (para_text p))).
    + destruct cur as [l|].
      * destruct (negb (ListType_eqb (list_type l)
                                     (listTypeOf (trim (para_text p))))).
        -- apply IH.
           ++ apply Forall_app. split; [exact Hls|].
              constructor; [now apply Hcur|constructor].
           ++ intros l' [= <-]. eexists. exists []. split; reflexivity.
        -- apply IH; [exact Hls|]. intros l' [= <-]. apply Hadd.
           now apply Hcur.
      * apply IH; [exact Hls|].
        intros l' [= <-]. eexists. exists []. split; reflexivity.
    + apply IH; [now apply Hpush|discriminate].
Qed.

Lemma identifyLists_items (ps : list Paragraph) :
  concat (List.map list_items (identifyLists ps))
  = List.map paragraphItem (List.filter isListParagraph ps).
Proof.
  unfold identifyLists. now rewrite identifyLists_loop_items.
Qed.

Lemma identifyLists_blockInv (ps : list Paragraph) :
  Forall blockInv (identifyLists ps).
Proof.
  apply identifyLists_loop_inv; [constructor|discriminate].
Qed.

(** X9: the list blocks of a page hold, in order, one item for every
    paragraph whose trimmed text opens with a bullet, numbered or lettered
    marker, and nothing else; no block is empty, and a block's [y] is the
    [y] of its first item. *)
Theorem lists_hold_marked_paragraphs (ps : list Paragraph) :
  concat (List.map list_items (identifyLists ps))
  = List.map paragraphItem (List.filter isListParagraph ps)
  /\ Forall blockInv (identifyLists ps).
Proof.
  split.
  - unfold identifyLists. now rewrite identifyLists_loop_items.
  - apply identifyLists_loop_inv; [constructor|discriminate].
Qed.

(** ** The table detector: the rows of a block *)

Lemma rowsClose_snoc (rows : list TableRow) (a b : TableRow) :
  rowsClose rows -> last rows = Some a ->
  num_lt (Math_abs (num_sub (row_y b) (row_y a))) (Num 30) = true ->
  rowsClose (rows ++ [b]).
Proof.
  induction rows as [|c rows IH]; intros Hc Hl Hn; [discriminate|].
  destruct rows as [|d rows].
  - injection Hl as ->. simpl. auto.
  - destruct Hc as [Hcd Hc]. rewrite last_cons_cons in Hl.
    change ((c :: d :: rows) ++ [b]) with (c :: ((d :: rows) ++ [b])).
    specialize (IH Hc Hl Hn). simpl in *. auto.
Qed.

Lemma List_last_Some {A} (l : list A) (a d : A) :
  last (a :: l) = Some (List.last (a :: l) d).
Proof.
  revert a. induction l as [|b l IH]; intros a; [reflexivity|].
  rewrite last_cons_cons. change (List.last (a :: b :: l) d)
    with (List.last (b :: l) d). apply IH.
Qed.

Lemma last_map {A B} (f : A -> B) (l : list A) :
  last (List.map f l) = f <$> last l.
Proof.
  induction l as [|a [|b l] IH]; try reflexivity.
  cbn [List.map] in *. now rewrite !last_cons_cons.
Qed.

Lemma joinsTable_blockRowsInv (first : Candidate) (cur : list Candidate)
    (c : Candidate) :
  blockRowsInv (first :: cur) ->
  joinsTable (first :: cur) first c = true ->
  blockRowsInv ((first :: cur) ++ [c]).
Proof.
  intros [Hclose Hcount] Hj. unfold joinsTable in Hj.
  apply andb_true_iff in Hj as [Hy Hn]. apply Z.leb_le in Hn. split.
  - rewrite List.map_app.
    apply rowsClose_snoc
      with (rowOf (List.last (first :: cur) first)); [exact Hclose| |exact Hy].
    rewrite last_map, (List_last_Some cur first first). reflexivity.
  - cbn [app]. change (first :: cur ++ [c]) with ((first :: cur) ++ [c]).
    apply Forall_app. split; [exact Hcount|]. now constructor.
Qed.

Lemma pushTable_inv (ts : list TableBlock) (cur : list Candidate) :
  Forall tableInv ts -> Forall candidateInv cur -> blockRowsInv cur ->
  Forall tableInv (pushTable ts cur).
Proof.
  intros Hts Hcand [Hclose Hcount].
  destruct cur as [|first [|second cur]]; try exact Hts.
  unfold pushTable. apply Forall_app. split; [exact Hts|].
  constructor; [|constructor].
  pose proof Hcand as Hc0. apply Forall_cons in Hc0 as [[Hlen _] _].
  exists (rowOf first), (List.map rowOf (second :: cur)).
  cbn [table_rows table_columnCount table_y].
  split; [reflexivity|]. split; [exact Hlen|]. split; [reflexivity|].
  split; [exact Hclose|].
  rewrite List.Forall_forall in Hcand, Hcount |- *.
  intros r Hr. apply in_map_iff in Hr as (c & <- & Hc).
  destruct (Hcand c Hc) as [Hl H3]. specialize (Hcount c Hc).
  cbn [row_segments rowOf]. rewrite <- Hl. split; [exact H3|exact Hcount].
Qed.

Lemma groupTableLines_inv (cands : list Candidate) :
  forall (ts : list TableBlock) (cur : list Candidate),
    Forall candidateInv cands ->
    Forall tableInv ts -> Forall candidateInv cur -> blockRowsInv cur ->
    Forall tableInv (groupTableLines cands ts cur).
Proof.
  assert (Hone : forall c, blockRowsInv [c]).
  { intros c. split; [exact I|]. constructor; [|constructor].
    rewrite Z.sub_diag. simpl. lia. }
  induction cands as [|c cands IH]; intros ts cur Hcands Hts Hcur Hinv.
  - now apply pushTable_inv.
  - apply Forall_cons in Hcands as [Hc Hcands]. cbn [groupTableLines].
    destruct cur as [|first cur'].
    + apply IH; auto.
    + destruct (joinsTable (first :: cur') first c) eqn:Ej.
      * apply IH; [exact Hcands|exact Hts| |].
        -- apply Forall_app. split; [exact Hcur|now constructor].
        -- now apply joinsTable_blockRowsInv.
      * apply IH; [exact Hcands| | |].
        -- now apply pushTable_inv.
        -- now constructor.
        -- apply Hone.
Qed.

Lemma potentialTableLines_inv (ls : list Line) :
  Forall candidateInv (potentialTableLines ls).
Proof.
  rewrite List.Forall_forall. intros c Hc.
  apply list_elem_of_In, list_elem_of_omap in Hc as (l & _ & Hl).
  unfold candidateOf in Hl.
  destruct (3 <=? length (split wideGap (line_text l)))%nat eqn:E;
    [|discriminate].
  injection Hl as <-. split; [reflexivity|]. now apply Nat.leb_le in E.
Qed.

(** X10: the rows of every emitted table block are less than 30 units
    from one another in sequence, each has at least three segments and a
    segment count within one of the block's column count, which is the
    segment count of the first row; the block's [y] is the first row's. *)
Theorem tables_rows_invariant (ls : list Line) (t : TableBlock) :
  In t (identifyTables ls) -> tableInv t.
Proof.
  rewrite identifyTables_loop. intros Hin.
  pose proof (groupTableLines_inv (potentialTableLines ls) [] []
                (potentialTableLines_inv ls) (List.Forall_nil _)
                (List.Forall_nil _) (conj I I)) as H.
  rewrite List.Forall_forall in H. now apply H.
Qed.

Lemma tables_rows_invariant_witness :
  exists t, In t (identifyTables tableLines) /\ tableInv t.
Proof.
  eexists. split; [vm_compute; left; reflexivity|].
  apply (tables_rows_invariant tableLines). vm_compute. left. reflexivity.
Defined.

(** ** The outline: no heading is lost *)

Lemma outlineStep_attach (st : OutlineState) (h : Heading) :
  attachInv st -> attachInv (outlineStep st h).
Proof.
  intros (Hstk & Hout & Hch & Hatt). unfold outlineStep.
  set (item := length (store st)).
  set (new := {| oi_text := heading_text h; oi_level := heading_level h;
                 oi_pageNumber := heading_pageNumber h; oi_children := [] |}).
  pose proof (popStack_suffix (store st) (heading_level h) (stack st) Hstk)
    as Hpop.
  assert (Hlen : length (store st ++ [new]) = S item)
    by (rewrite length_app; simpl; unfold item; lia).
  assert (Hnew : forall i it, (store st ++ [new]) !! i = Some it ->
                   (i < item)%nat /\ store st !! i = Some it
                   \/ i = item /\ it = new).
  { intros i it Hi. destruct (decide (i < item)%nat) as [Hlt|Hge].
    - left. split; [exact Hlt|]. now rewrite lookup_app_l in Hi.
    - right. rewrite lookup_app_r in Hi by (unfold item in Hge; lia).
      destruct (i - length (store st))%nat eqn:Ed; simpl in Hi;
        [|discriminate].
      injection Hi as <-. unfold item in *. split; [unfold item in *; lia|reflexivity]. }
  assert (Hold : forall j it, store st !! j = Some it ->
                   (store st ++ [new]) !! j = Some it).
  { intros j it Hj. rewrite lookup_app_l; [exact Hj|].
    now apply lookup_lt_Some in Hj. }
  destruct (popStack (store st) (heading_level h) (stack st))
    as [|top below] eqn:Epop.
  - unfold attachInv. cbn [store outline stack]. rewrite Hlen.
    split; [|split; [|split]].
    + constructor; [unfold item in *; lia|constructor].
    + intros r Hr. apply in_app_iff in Hr as [Hr|[<-|[]]]; [|unfold item in *; lia].
      specialize (Hout r Hr). unfold item in *. lia.
    + intros i it c Hi Hc.
      destruct (Hnew i it Hi) as [[Hlt Hi']|[-> ->]]; [|destruct Hc].
      destruct (Hch i it c Hi' Hc). unfold item in *. lia.
    + intros i Hi. destruct (decide (i < item)%nat) as [Hlt|Hge].
      * destruct (Hatt i Hlt) as [Ho|(j & it & Hj & Hc)].
        -- left. apply in_app_iff. now left.
        -- right. exists j, it. split; [now apply Hold|exact Hc].
      * left. apply in_app_iff. right. left. unfold item in *. lia.
  - destruct (popStack_top _ _ _ _ _ Hstk Epop) as (pt & Hpt & _).
    assert (Htop : (top < item)%nat) by now apply lookup_lt_Some in Hpt.
    assert (Hlook_top : alter (addChild item) top (store st ++ [new]) !! top
                        = Some (addChild item pt)).
    { rewrite list_lookup_alter_eq, (Hold top pt Hpt). reflexivity. }
    unfold attachInv. cbn [store outline stack]. rewrite length_alter, Hlen.
    split; [|split; [|split]].
    + constructor; [unfold item in *; lia|].
      eapply Forall_impl; [exact Hpop|]. simpl. intros; unfold item in *; lia.
    + intros r Hr. specialize (Hout r Hr). unfold item in *. lia.
    + intros i it c Hi Hc. destruct (decide (top = i)) as [<-|Hne].
      * rewrite Hlook_top in Hi. injection Hi as <-. simpl in Hc.
        apply in_app_iff in Hc as [Hc|[<-|[]]]; [|unfold item in *; lia].
        destruct (Hch top pt c Hpt Hc). unfold item in *. lia.
      * rewrite list_lookup_alter_ne in Hi by exact Hne.
        destruct (Hnew i it Hi) as [[Hlt Hi']|[-> ->]]; [|destruct Hc].
        destruct (Hch i it c Hi' Hc). unfold item in *. lia.
    + intros i Hi. destruct (decide (i < item)%nat) as [Hlt|Hge].
      * destruct (Hatt i Hlt) as [Ho|(j & it & Hj & Hc)]; [now left|].
        right. destruct (decide (top = j)) as [<-|Hne].
        -- exists top, (addChild item pt). split; [exact Hlook_top|].
           rewrite Hpt in Hj. injection Hj as <-. simpl.
           apply in_app_iff. now left.
        -- exists j, it. split; [|exact Hc].
           rewrite list_lookup_alter_ne by exact Hne. now apply Hold.
      * right. exists top, (addChild item pt). split; [exact Hlook_top|].
        simpl. apply in_app_iff. right. left. unfold item in *. lia.
Qed.

Lemma outlineLoop_attach (hs : list Heading) : attachInv (outlineLoop hs).
Proof.
  unfold outlineLoop.
  assert (G : forall st, attachInv st ->
                attachInv (fold_left outlineStep hs st)).
  { induction hs as [|h hs IH]; intros st Hst; simpl; [exact Hst|].
    apply IH. now apply outlineStep_attach. }
  apply G. unfold attachInv. simpl.
  split; [constructor|]. split; [intros r []|].
  split; [intros i it c Hi; discriminate|]. intros i Hi. lia.
Qed.

Lemma alter_addChild_keys (c i : nat) (l : list OutlineItem) :
  List.map itemKey (alter (addChild c) i l) = List.map itemKey l.
Proof.
  revert i. induction l as [|a l IH]; intros i; [reflexivity|].
  destruct i as [|i]; simpl; [reflexivity|]. f_equal. apply IH.
Qed.

Lemma outlineStep_keys (st : OutlineState) (h : Heading) :
  List.map itemKey (store (outlineStep st h))
  = List.map itemKey (store st) ++ [headingKey h].
Proof.
  unfold outlineStep.
  destruct (popStack (store st) (heading_level h) (stack st));
    cbn [store]; rewrite ?alter_addChild_keys, List.map_app; reflexivity.
Qed.

(** The store holds one item per heading, in the order of the loop. *)
Lemma outlineLoop_keys (hs : list Heading) :
  List.map itemKey (store (outlineLoop hs)) = List.map headingKey hs.
Proof.
  unfold outlineLoop.
  assert (G : forall st,
             List.map itemKey (store (fold_left outlineStep hs st))
             = List.map itemKey (store st) ++ List.map headingKey hs).
  { induction hs as [|h hs IH]; intros st; simpl; [now rewrite app_nil_r|].
    rewrite IH, outlineStep_keys. now rewrite <- app_assoc. }
  apply (G {| store := []; outline := []; stack := [] |}).
Qed.

Lemma nodesFrom_length (items : list OutlineItem) (base : nat) :
  length (nodesFrom items base) = length items.
Proof.
  revert base. induction items as [|it items IH]; intros base; simpl;
    [reflexivity|]. now rewrite IH.
Qed.

Lemma nodesFrom_shift (items : list OutlineItem) :
  forall (base k j : nat),
    nodesFrom items base !! (k + j)%nat
    = nodesFrom (drop k items) (base + k) !! j.
Proof.
  induction items as [|it items IH]; intros base k j.
  - rewrite drop_nil. simpl. now rewrite !lookup_nil.
  - destruct k as [|k].
    + now rewrite Nat.add_0_r.
    + cbn [drop nodesFrom Nat.add lookup]. simpl.
      rewrite IH. f_equal. f_equal. lia.
Qed.

(** The node of reference [k]: the fields of the item, and the nodes of
    its children. *)
Lemma nodesFrom_node (items : list OutlineItem) (k : nat) (it : OutlineItem) :
  items !! k = Some it ->
  (forall c, In c (oi_children it) -> (k < c)%nat) ->
  nodesFrom items 0 !! k
  = Some (Node (oi_text it) (oi_level it) (oi_pageNumber it)
               (omap (fun c => nodesFrom items 0 !! c) (oi_children it))).
Proof.
  intros Hk Hc.
  pose proof (nodesFrom_shift items 0 k 0) as Hs.
  rewrite Nat.add_0_r in Hs. rewrite Hs. clear Hs.
  rewrite (drop_S items it k Hk). cbn [nodesFrom lookup]. simpl.
  f_equal. f_equal. apply list_omap_ext.
  apply Forall2_same_length_lookup_2; [reflexivity|].
  intros i c c' Hi Hi'. rewrite Hi in Hi'. injection Hi' as <-.
  assert (Hlt : (k < c)%nat)
    by (apply Hc; now apply list_elem_of_In, list_elem_of_lookup_2 with i).
  assert (E : (c <=? k)%nat = false) by (apply Nat.leb_gt; lia).
  pose proof (nodesFrom_shift items 0 (S k) (c - S k)) as Hs.
  replace (S k + (c - S k))%nat with c in Hs by lia.
  simpl in Hs |- *. rewrite E, Hs. reflexivity.
Qed.

Lemma inTree_child (n m t : OutlineNode) :
  inTree m t -> In n (node_children m) -> inTree n t.
Proof.
  induction 1 as [|t c Hc _ IH]; intros Hn.
  - apply inTree_below with n; [exact Hn|apply inTree_here].
  - apply inTree_below with c; [exact Hc|now apply IH].
Qed.

(** Every reference of the store is reachable from the outline. *)
Lemma forestOf_reachable (st : OutlineState) :
  attachInv st ->
  forall (k : nat) (it : OutlineItem),
    store st !! k = Some it ->
    exists root n, In root (forestOf st) /\ inTree n root
                   /\ nodeKey n = itemKey it.
Proof.
  intros (_ & Hout & Hch & Hatt).
  assert (Hnode : forall k it, store st !! k = Some it ->
            nodesFrom (store st) 0 !! k
            = Some (Node (oi_text it) (oi_level it) (oi_pageNumber it)
                      (omap (fun c => nodesFrom (store st) 0 !! c)
                            (oi_children it)))).
  { intros k it Hk. apply nodesFrom_node; [exact Hk|].
    intros c Hc. now destruct (Hch k it c Hk Hc). }
  assert (G : forall k it, store st !! k = Some it ->
            exists root n, In root (forestOf st) /\ inTree n root
                           /\ nodesFrom (store st) 0 !! k = Some n).
  { induction k as [k IH] using lt_wf_ind. intros it Hk.
    destruct (Hatt k (lookup_lt_Some _ _ _ Hk)) as [Ho|(j & jt & Hj & Hc)].
    - eexists. eexists. split; [|split; [apply inTree_here|apply (Hnode k it Hk)]].
      unfold forestOf. apply list_elem_of_In, list_elem_of_omap.
      exists k. split; [now apply list_elem_of_In|apply (Hnode k it Hk)].
    - destruct (Hch j jt k Hj Hc) as [Hlt _].
      destruct (IH j Hlt jt Hj) as (root & m & Hroot & Hm & Hjm).
      exists root. eexists. split; [exact Hroot|].
      split; [|apply (Hnode k it Hk)].
      apply inTree_child with m; [exact Hm|].
      rewrite (Hnode j jt Hj) in Hjm. injection Hjm as <-.
      cbn [node_children]. apply list_elem_of_In, list_elem_of_omap.
      exists k. split; [now apply list_elem_of_In|apply (Hnode k it Hk)]. }
  intros k it Hk. destruct (G k it Hk) as (root & n & Hroot & Hn & Hkn).
  exists root, n. split; [exact Hroot|]. split; [exact Hn|].
  rewrite (Hnode k it Hk) in Hkn. now injection Hkn as <-.
Qed.

(** X11: no heading is lost: every heading of the document is a node of
    the outline, a root or a node below one, with its text, level and
    page number. *)
Theorem outline_holds_every_heading (content : Content) (h : Heading) :
  In h (headings (structure content)) ->
  exists root n,
    In root (generateOutline content) /\ inTree n root
    /\ node_text n = heading_text h /\ node_level n = heading_level h
    /\ node_pageNumber n = heading_pageNumber h.
Proof.
  intros Hin. unfold generateOutline.
  set (hs := Array_sort compareHeadings (headings (structure content))).
  assert (Hs : In h hs)
    by now apply (Permutation_in _ (Array_sort_perm compareHeadings _)).
  apply list_elem_of_In, list_elem_of_lookup_1 in Hs as [k Hk].
  pose proof (outlineLoop_keys hs) as Hkeys.
  assert (Hit : exists it, store (outlineLoop hs) !! k = Some it
                           /\ itemKey it = headingKey h).
  { apply (f_equal (fun l => l !! k)) in Hkeys.
    rewrite !list_lookup_fmap, Hk in Hkeys. simpl in Hkeys.
    destruct (store (outlineLoop hs) !! k) as [it|]; [|discriminate].
    exists it. split; [reflexivity|].
    change (Some (itemKey it) = Some (headingKey h)) in Hkeys.
    now apply (inj Some) in Hkeys. }
  destruct Hit as (it & Hit & Hkey).
  destruct (forestOf_reachable _ (outlineLoop_attach hs) k it Hit)
    as (root & n & Hroot & Hn & Hnk).
  exists root, n. split; [exact Hroot|]. split; [exact Hn|].
  rewrite Hkey in Hnk. unfold nodeKey, headingKey in Hnk.
  now injection Hnk.
Qed.

Lemma outline_holds_every_heading_witness :
  exists root n,
    In root (generateOutline (sampleContent sampleHeadings []))
    /\ inTree n root
    /\ node_text n = str "1.2.1 Units" /\ node_level n = 3%Z.
Proof.
  edestruct (outline_holds_every_heading
               (sampleContent sampleHeadings []) (heading "1.2.1 Units" 3 2 700))
    as (root & n & Hroot & Hn & Ht & Hl & _).
  - vm_compute. do 3 right. left. reflexivity.
  - exists root, n. repeat split; assumption.
Defined.

(** ** Sections: one per heading, and where the last one ends *)



Lemma scanParagraphs_noStart (h : Heading) (e : option Heading)
    (ps : list Paragraph) (content : jsstring) :
  Forall (fun p => sameParagraph p h = false) ps ->
  scanParagraphs ps h e content false = (content, false).
Proof.
  induction 1 as [|p ps Hp _ IH]; [reflexivity|].
  cbn [scanParagraphs]. rewrite Hp.
  destruct (match e with Some e0 => sameParagraph p e0 | None => false end);
    [reflexivity|exact IH].
Qed.

Lemma scanPages_noStart (h : Heading) (e : option Heading) (ps : list Page)
    (content : jsstring) :
  Forall (noStart h) ps -> scanPages ps h e content false = content.
Proof.
  induction 1 as [|page ps Hp _ IH]; [reflexivity|].
  cbn [scanPages].
  destruct (num_lt (page_pageNumber page) (heading_pageNumber h));
    [exact IH|].
  destruct (match e with
            | Some e0 => num_gt (page_pageNumber page) (heading_pageNumber e0)
            | None => false
            end); [reflexivity|].
  rewrite (scanParagraphs_noStart h e _ content Hp). cbn [negb andb].
  destruct (is_some e); [reflexivity|exact IH].
Qed.

(** X13: when no paragraph of any page has the [y] and the text of the
    start heading, the section content is empty, whatever the end
    heading. *)
Theorem section_without_start_is_empty (ps : list Page) (h : Heading)
    (e : option Heading) :
  Forall (noStart h) ps -> extractSectionContent ps h e = [].
Proof.
  intros H. unfold extractSectionContent.
  now rewrite scanPages_noStart.
Qed.




Lemma section_without_start_is_empty_witness :
  Forall (noStart (heading "Missing" 1 1 500))
         (pages (processPDF nestedSections))
  /\ extractSectionContent (pages (processPDF nestedSections))
                           (heading "Missing" 1 1 500) None = [].
Proof.
  assert (H : Forall (noStart (heading "Missing" 1 1 500))
                     (pages (processPDF nestedSections))).
  { unfold noStart. vm_compute. repeat constructor. }
  split; [exact H|].
  exact (section_without_start_is_empty _ _ None H).
Defined.


(** ** The reading order: what it holds *)

(** X15: the reading order is a rearrangement of the collected elements:
    every paragraph of every page is in it, and a heading is in it exactly
    when its page number is the number of some page. *)
Theorem reading_order_holds_elements (content : Content) :
  Permutation (flat_map (pageElements content) (pages content))
              (determineReadingOrder content)
  /\ (forall page p,
        In page (pages content) -> In p (paragraphs (page_content page)) ->
        In (element (EParagraph p) (page_pageNumber page) (para_y p))
           (determineReadingOrder content))
  /\ (forall h,
        In h (headings (structure content)) ->
        (exists e, In e (determineReadingOrder content)
                   /\ elem_content e = EHeading h)
        <-> exists page, In page (pages content)
                         /\ strict_eq (heading_pageNumber h)
                                      (page_pageNumber page) = true).
Proof.
  pose proof (Array_sort_perm compareOrder
                (flat_map (pageElements content) (pages content))) as Hperm.
  split; [exact Hperm|]. split.
  - intros page p Hpage Hp.
    apply (Permutation_in _ Hperm). apply in_flat_map.
    exists page. split; [exact Hpage|]. unfold pageElements.
    rewrite !in_app_iff. right. left.
    apply in_map_iff. now exists p.
  - intros h Hh. split.
    + intros (e & He & Hc).
      apply (Permutation_in _ (Permutation_sym Hperm)) in He.
      apply in_flat_map in He as (page & Hpage & He).
      exists page. split; [exact Hpage|].
      unfold pageElements in He. rewrite !in_app_iff, !in_map_iff in He.
      destruct He as [H|[H|[H|H]]]; destruct H as (x & <- & Hx);
        simpl in Hc; try discriminate.
      injection Hc as ->. now apply filter_In in Hx as [_ Hx].
    + intros (page & Hpage & Heq).
      exists (element (EHeading h) (page_pageNumber page) (heading_y h)).
      split; [|reflexivity].
      apply (Permutation_in _ Hperm). apply in_flat_map.
      exists page. split; [exact Hpage|]. unfold pageElements.
      rewrite !in_app_iff. left. apply in_map_iff. exists h.
      split; [reflexivity|]. apply filter_In. now split.
Qed.

Lemma reading_order_holds_elements_witness :
  exists page p,
    In page (pages (processPDF twoPages))
    /\ In p (paragraphs (page_content page))
    /\ In (element (EParagraph p) (page_pageNumber page) (para_y p))
          (determineReadingOrder (processPDF twoPages)).
Proof.
  destruct (reading_order_holds_elements (processPDF twoPages))
    as (_ & Hpara & _).
  assert (H : exists page p,
             In page (pages (processPDF twoPages))
             /\ In p (paragraphs (page_content page))).
  { eexists. eexists. split; [vm_compute; left; reflexivity|].
    vm_compute. left. reflexivity. }
  destruct H as (page & p & Hpage & Hp).
  exists page, p. split; [exact Hpage|]. split; [exact Hp|].
  now apply Hpara.
Defined.

(** ** Pages: failures stay local *)

Lemma extractPagesFrom_lookup (doc : list (list RawItem)) :
  forall (n i : nat),
    extractPagesFrom n doc !! i = extractPage (n + i) <$> doc !! i.
Proof.
  induction doc as [|items doc IH]; intros n i; [reflexivity|].
  destruct i as [|i]; simpl.
  - now rewrite Nat.add_0_r.
  - rewrite IH. now rewrite Nat.add_succ_r.
Qed.


Lemma analyzePages_app (p1 p2 : list Page) :
  forall st, analyzePages (p1 ++ p2) st = analyzePages p2 (analyzePages p1 st).
Proof.
  induction p1 as [|page p1 IH]; intros st; [reflexivity|].
  cbn [app analyzePages]. destruct (page_error page); apply IH.
Qed.

Lemma extractPagesFrom_app (d1 d2 : list (list RawItem)) :
  forall n, extractPagesFrom n (d1 ++ d2)
            = extractPagesFrom n d1 ++ extractPagesFrom (n + length d1) d2.
Proof.
  induction d1 as [|items d1 IH]; intros n; simpl.
  - now rewrite Nat.add_0_r.
  - rewrite IH. now rewrite Nat.add_succ_r.
Qed.

Lemma analyzePages_failed (n : nat) (items : list RawItem)
    (rest : list Page) (st : Structure) :
  textItemsOf items = None ->
  analyzePages (extractPage n items :: rest) st = analyzePages rest st.
Proof.
  intros H. unfold extractPage. rewrite H. reflexivity.
Qed.

Lemma analyzePages_no_items (n : nat) (rest : list Page) (st : Structure) :
  analyzePages (extractPage n [] :: rest) st = analyzePages rest st.
Proof.
  destruct st as [hs ts ls]. cbn. now rewrite !app_nil_r.
Qed.

(** X17: a page whose extraction fails counts as an empty page: the
    structure found in the document (headings, lists, tables) is the one
    found when that page has no items at all, and the failure never
    aborts the other pages. *)
Theorem failed_page_is_empty_page (d1 d2 : list (list RawItem))
    (bad : list RawItem) :
  textItemsOf bad = None ->
  structure (processPDF (d1 ++ bad :: d2))
  = structure (processPDF (d1 ++ [] :: d2))
  /\ forall i, i <> length d1 ->
       pages (processPDF (d1 ++ bad :: d2)) !! i
       = pages (processPDF (d1 ++ [] :: d2)) !! i.
Proof.
  intros Hbad. split.
  - unfold processPDF, extractAllPages. cbn [structure pages].
    unfold analyzeStructure.
    rewrite !extractPagesFrom_app, !analyzePages_app.
    cbn [extractPagesFrom].
    rewrite (analyzePages_failed _ bad _ _ Hbad).
    now rewrite analyzePages_no_items.
  - intros i Hi. unfold processPDF. cbn [pages].
    unfold extractAllPages. rewrite !extractPagesFrom_lookup.
    destruct (decide (i < length d1)%nat) as [Hlt|Hge].
    + now rewrite !lookup_app_l by exact Hlt.
    + rewrite !lookup_app_r by lia.
      destruct (i - length d1)%nat eqn:E; [lia|reflexivity].
Qed.


Lemma failed_page_is_empty_page_witness :
  textItemsOf [damagedItem] = None
  /\ structure (processPDF ([baselineItems] ++ [damagedItem] :: [baselineItems]))
     = structure (processPDF ([baselineItems] ++ [] :: [baselineItems])).
Proof.
  split; [reflexivity|].
  now destruct (failed_page_is_empty_page [baselineItems] [baselineItems]
                  [damagedItem] eq_refl).
Defined.

(** ** Enhanced lists *)

Lemma trimStart_head (s : jsstring) : noLeadingSpace (trimStart s).
Proof.
  induction s as [|c s IH]; simpl; [exact I|].
  destruct (is_space c) eqn:E; [exact IH|exact E].
Qed.

Lemma trimStart_snoc (s : jsstring) (c : char) :
  is_space c = false -> exists u, trimStart (s ++ [c]) = u ++ [c].
Proof.
  intros Hc. induction s as [|d s IH]; simpl.
  - rewrite Hc. now exists [].
  - destruct (is_space d); [exact IH|]. now exists (d :: s).
Qed.

Lemma trim_head (s : jsstring) : noLeadingSpace (trim s).
Proof.
  unfold trim, trimEnd. pose proof (trimStart_head s) as H.
  destruct (trimStart s) as [|c t]; [exact I|].
  simpl in H. cbn [rev].
  destruct (trimStart_snoc (rev t) c H) as [u Hu]. rewrite Hu.
  rewrite rev_app_distr. simpl. exact H.
Qed.

Lemma detectItemLevel_trimmed (s : jsstring) :
  noLeadingSpace s -> detectItemLevel s = 1%nat.
Proof.
  intros H. unfold detectItemLevel, regex_exec, leadingSpaceRe.
  destruct s as [|c t]; [reflexivity|].
  simpl in H. cbn. now rewrite H.
Qed.

Lemma identifyLists_item_trimmed (ps : list Paragraph) (l : ListBlock)
    (it : ListItem) :
  In l (identifyLists ps) -> In it (list_items l) ->
  noLeadingSpace (li_text it).
Proof.
  intros Hl Hit.
  pose proof (identifyLists_items ps) as Hitems.
  assert (H : In it (concat (List.map list_items (identifyLists ps)))).
  { apply in_concat. exists (list_items l). split; [|exact Hit].
    now apply in_map. }
  rewrite Hitems in H. apply in_map_iff in H as (p & <- & _).
  apply trim_head.
Qed.

(** X18: nesting is never found in the lists of the processor: the
    items' texts are trimmed when the list is built, so the indentation
    level of every item is 1, and the nesting analysis answers "no
    nesting" with both extreme levels 1. *)
Theorem processor_lists_are_flat (ps : list Paragraph) (l : ListBlock) :
  In l (identifyLists ps) ->
  Forall (fun ci => ci_level ci = 1%nat) (el_cleanItems (enhanceList l))
  /\ hasNesting (el_nesting (enhanceList l)) = false
  /\ maxLevel (el_nesting (enhanceList l)) = Some 1%nat
  /\ minLevel (el_nesting (enhanceList l)) = Some 1%nat
  /\ levelCount (el_nesting (enhanceList l)) = 1%nat.
Proof.
  intros Hl.
  assert (Hlev : List.map (fun it => detectItemLevel (li_text it))
                          (list_items l)
                 = List.map (fun _ => 1%nat) (list_items l)).
  { apply map_ext_in. intros it Hit. apply detectItemLevel_trimmed.
    now apply identifyLists_item_trimmed with ps l. }
  assert (Hne : exists first rest, list_items l = first :: rest).
  { pose proof (identifyLists_blockInv ps) as Hb.
    rewrite List.Forall_forall in Hb.
    destruct (Hb l Hl) as (first & rest & Hi & _). now exists first, rest. }
  destruct Hne as (first & rest & Hitems).
  split.
  - cbn [el_cleanItems enhanceList]. rewrite List.Forall_forall.
    intros ci Hci. apply in_map_iff in Hci as (it & <- & Hit). simpl.
    apply detectItemLevel_trimmed.
    now apply identifyLists_item_trimmed with ps l.
  - cbn [el_nesting enhanceList]. unfold analyzeListNesting.
    rewrite Hlev, Hitems. cbn [List.map maxOf minOf hasNesting maxLevel
                                 minLevel levelCount].
    assert (Hmax : fold_left Nat.max (List.map (fun _ => 1%nat) rest) 1%nat
                   = 1%nat)
      by (clear; induction rest as [|r rest IH]; simpl;
          [reflexivity|exact IH]).
    assert (Hmin : fold_left Nat.min (List.map (fun _ => 1%nat) rest) 1%nat
                   = 1%nat)
      by (clear; induction rest as [|r rest IH]; simpl;
          [reflexivity|exact IH]).
    assert (Huniq : uniqueFrom Nat.eqb [1%nat]
                      (List.map (fun _ => 1%nat) rest) = [])
      by (clear; induction rest as [|r rest IH]; simpl;
          [reflexivity|exact IH]).
    rewrite Hmax, Hmin. unfold unique. cbn [uniqueFrom existsb].
    rewrite Huniq. repeat split.
Qed.

Lemma processor_lists_are_flat_witness :
  exists l,
    In l (identifyLists bulletParagraphs)
    /\ List.map li_text (list_items l) = [str "Alpha"; str "Beta"]
    /\ hasNesting (el_nesting (enhanceList l)) = false.
Proof.
  eexists. split; [vm_compute; left; reflexivity|].
  split; [vm_compute; reflexivity|].
  edestruct (processor_lists_are_flat bulletParagraphs) as (_ & Hflat & _);
    [vm_compute; left; reflexivity|].
  exact Hflat.
Defined.

Lemma search_Bol_later (r : regex) (suffix : jsstring) :
  forall p, search (Seq Bol r) (S p) suffix = None.
Proof.
  induction suffix as [|c suffix IH]; intros p; simpl; [reflexivity|].
  apply IH.
Qed.

(** A pattern anchored at the start and made of one character class is a
    test of the first character. *)
Lemma regex_test_first (f : char -> bool) (s : jsstring) :
  regex_test (Seq Bol (Chr f)) s
  = match s with
    | c :: _ => f c
    | [] => false
    end.
Proof.
  unfold regex_test, regex_exec. simpl (0 <=? length s)%nat. cbn [skipn].
  destruct s as [|c t]; [reflexivity|].
  cbn [search]. unfold match_at. cbn.
  destruct (f c); [reflexivity|]. now rewrite search_Bol_later.
Qed.

Lemma roman_is_letter (c : char) :
  one_of (str "ivxlcdm") (lower c) = true -> is_letter c = true.
Proof.
  unfold is_letter, lower. destruct (is_upper c) eqn:E; [reflexivity|].
  intros H. cbn in H.
  repeat (apply orb_true_iff in H as [H|H]);
    try (apply N.eqb_eq in H; subst c; reflexivity).
  discriminate.
Qed.

(** X19: the list style is never "roman": the marker of an ordered list
    is tested for a leading letter before it is tested for a roman
    numeral, and every roman numeral letter is a letter. *)
Theorem list_style_never_roman (l : ListBlock) :
  detectListStyle l <> style_roman.
Proof.
  unfold detectListStyle. destruct (list_type l).
  - set (m := match list_items l with
              | it :: _ => li_marker it
              | [] => []
              end).
    destruct (regex_test startsDigit m); [discriminate|].
    unfold startsLetter, startsRoman. rewrite !regex_test_first.
    destruct m as [|c t]; [discriminate|].
    destruct (is_letter c) eqn:E; [discriminate|].
    destruct (one_of (str "ivxlcdm") (lower c)) eqn:R; [|discriminate].
    apply roman_is_letter in R. congruence.
  - destruct (unique str_eqb (List.map li_marker (list_items l)))
      as [|marker [|]]; try discriminate.
    destruct (existsb (str_eqb marker) [[8226%N]; [183%N]; [9642%N]]);
      [discriminate|].
    destruct (existsb (str_eqb marker) [str "-"; str "*"; str "+"]);
      discriminate.
Qed.

(** ** File names *)

Lemma lastIndexFrom_absent (c : char) (s : jsstring) :
  ~ In c s -> forall i found, lastIndexFrom c s i found = found.
Proof.
  induction s as [|d s IH]; intros Hn i found; [reflexivity|].
  simpl. destruct (N.eqb d c) eqn:E.
  - apply N.eqb_eq in E. subst d. elim Hn. now left.
  - apply IH. intros Hin. apply Hn. now right.
Qed.

Lemma lastIndexFrom_last (c : char) (pre ext : jsstring) :
  ~ In c ext ->
  forall i found,
    lastIndexFrom c (pre ++ c :: ext) i found = (i + Z.of_nat (length pre))%Z.
Proof.
  intros Hn. induction pre as [|d pre IH]; intros i found.
  - simpl. rewrite N.eqb_refl, lastIndexFrom_absent by exact Hn. lia.
  - cbn [app lastIndexFrom length]. rewrite IH. lia.
Qed.

(** X20: the extension of a file name.  For names shorter than 2^32 code
    units: a name without a dot, and a name whose only dot is its first
    character, have the empty extension (the unsigned shift turns the
    index -1 or 0 into an offset past the end); otherwise the extension is
    what follows the last dot. *)
Theorem file_extension_cases (filename : jsstring) :
  (Z.of_nat (length filename) < 2 ^ 32)%Z ->
  (~ In dot filename -> getFileExtension filename = [])
  /\ (forall rest, filename = dot :: rest -> ~ In dot rest ->
                   getFileExtension filename = [])
  /\ (forall pre ext, filename = pre ++ dot :: ext -> pre <> [] ->
                      ~ In dot ext -> getFileExtension filename = ext).
Proof.
  intros Hlen. unfold getFileExtension, lastIndexOf, toUint32.
  split; [|split].
  - intros Hn. rewrite lastIndexFrom_absent by exact Hn.
    apply skipn_all2. change ((-1 - 1) mod 2 ^ 32)%Z with (2 ^ 32 - 2)%Z.
    lia.
  - intros rest -> Hn.
    rewrite (lastIndexFrom_last dot [] rest Hn).
    apply skipn_all2. change ((0 + Z.of_nat (length (@nil char)) - 1)
                              mod 2 ^ 32)%Z with (2 ^ 32 - 1)%Z.
    lia.
  - intros pre ext -> Hpre Hn.
    rewrite (lastIndexFrom_last dot pre ext Hn).
    rewrite length_app in Hlen. cbn [length] in Hlen.
    assert (Hp : (0 < length pre)%nat) by (destruct pre; [easy|simpl; lia]).
    rewrite Z.mod_small by lia.
    replace (Z.to_nat (0 + Z.of_nat (length pre) - 1 + 2))
      with (length pre + 1)%nat by lia.
    clear. induction pre as [|d pre IH]; [reflexivity|exact IH].
Qed.

Lemma file_extension_cases_witness :
  getFileExtension (str "Makefile") = []
  /\ getFileExtension (str ".profile") = []
  /\ getFileExtension (str "notes.2024.pdf") = str "pdf".
Proof.
  assert (Hlen : forall s : string,
             (length (str s) < 100)%nat ->
             (Z.of_nat (length (str s)) < 2 ^ 32)%Z) by (intros; lia).
  split; [|split].
  - apply (file_extension_cases (str "Makefile")).
    + apply Hlen. vm_compute. lia.
    + vm_compute. intuition discriminate.
  - apply (file_extension_cases (str ".profile")) with (rest := str "profile").
    + apply Hlen. vm_compute. lia.
    + reflexivity.
    + vm_compute. intuition discriminate.
  - apply (file_extension_cases (str "notes.2024.pdf"))
      with (pre := str "notes.2024").
    + apply Hlen. vm_compute. lia.
    + reflexivity.
    + discriminate.
    + vm_compute. intuition discriminate.
Defined.

(** ** File validation *)

(** X21: what the validation accepts, for any rendering of the size in
    the message: a file is valid exactly when no error is recorded, and
    exactly when it is announced as a PDF by its type or its name, is not
    empty and does not exceed 50 MB; a warning is recorded exactly for
    sizes above 10 MB, and it does not make the file invalid. *)
Theorem validation_accepts (formatFileSize : Z -> jsstring) (file : File) :
  let r := validatePdfFile formatFileSize file in
  (valid r = true <-> errors r = [])
  /\ (valid r = true <->
      looksLikePdf file = true
      /\ file_size file <> 0%Z
      /\ (file_size file <= 50 * 1024 * 1024)%Z)
  /\ (warnings r <> [] <-> (10 * 1024 * 1024 < file_size file)%Z).
Proof.
  unfold validatePdfFile, failWith, looksLikePdf.
  destruct (includes (str "pdf") (file_type file));
    destruct (endsWith (str ".pdf") (toLowerCase (file_name file)));
    destruct (Z.ltb_spec (50 * 1024 * 1024) (file_size file)) as [Emax|Emax];
    destruct (Z.eqb_spec (file_size file) 0) as [Ezero|Ezero];
    destruct (Z.ltb_spec (10 * 1024 * 1024) (file_size file)) as [Ewarn|Ewarn];
    cbn [negb andb orb valid errors warnings app];
    repeat split; intros;
    first [ reflexivity | lia | congruence
          | match goal with
            | H : _ /\ _ /\ _ |- _ =>
                destruct H as (? & ? & ?); first [congruence | lia]
            end ].
Qed.

Lemma validation_accepts_witness :
  valid (validatePdfFile (fun _ => str "12 MB") (pdfFile "report.pdf" 12582912))
  = true
  /\ warnings (validatePdfFile (fun _ => str "12 MB")
                               (pdfFile "report.pdf" 12582912)) <> [].
Proof.
  destruct (validation_accepts (fun _ => str "12 MB")
              (pdfFile "report.pdf" 12582912)) as (_ & Hvalid & Hwarn).
  split.
  - apply Hvalid. split; [vm_compute; reflexivity|]. simpl. lia.
  - apply Hwarn. simpl. lia.
Defined.

(** ** Headings and sections meet *)

Lemma trimStart_id (s : jsstring) : noLeadingSpace s -> trimStart s = s.
Proof.
  destruct s as [|c t]; [reflexivity|]. simpl. now intros ->.
Qed.

Lemma trim_idempotent (s : jsstring) : trim (trim s) = trim s.
Proof.
  assert (Hend : noLeadingSpace (rev (trim s))).
  { unfold trim at 1, trimEnd. rewrite rev_involutive. apply trimStart_head. }
  unfold trim at 1. rewrite (trimStart_id _ (trim_head s)).
  unfold trimEnd. rewrite (trimStart_id _ Hend). apply rev_involutive.
Qed.

Lemma str_eqb_refl (s : jsstring) : str_eqb s s = true.
Proof.
  induction s as [|c s IH]; [reflexivity|]. simpl.
  now rewrite N.eqb_refl, IH.
Qed.

Lemma strict_eq_refl (v : jsnum) : v <> NaN -> strict_eq v v = true.
Proof.
  destruct v; simpl; try reflexivity; [|congruence].
  intros _. apply Qeq_bool_refl.
Qed.

(** X22: a heading can always be found again.  Every heading the
    classifier makes from the paragraphs of the segmenter carries exactly
    the text and the [y] of its paragraph, so, unless that [y] is [NaN],
    the paragraph passes the test by which [extractSectionContent]
    recognizes the start of the section. *)
Theorem heading_matches_paragraph (ls : list Line) (h : Heading) :
  In h (identifyHeadings (groupLinesIntoParagraphs ls)) ->
  exists p,
    In p (groupLinesIntoParagraphs ls)
    /\ heading_text h = para_text p /\ heading_y h = para_y p
    /\ (para_y p <> NaN -> sameParagraph p h = true).
Proof.
  intros Hh.
  destruct (identifyHeadings_source _ h Hh)
    as (_ & _ & p & Hp & Ht & Hy & _).
  assert (Htrim : trim (para_text p) = para_text p).
  { pose proof (groupLinesIntoParagraphs_inv ls) as Hinv.
    rewrite List.Forall_forall in Hinv. specialize (Hinv p Hp).
    unfold paraInv in Hinv.
    destruct (para_lines p) as [|first rest]; [destruct Hinv|].
    destruct Hinv as (_ & _ & Hpush). unfold pushParagraph in Hpush.
    simpl in Hpush. injection Hpush as Hpush. rewrite <- Hpush at 1 2.
    cbn [para_text]. apply trim_idempotent. }
  exists p. split; [exact Hp|]. rewrite Htrim in Ht.
  split; [exact Ht|]. split; [exact Hy|].
  intros Hnan. unfold sameParagraph. rewrite Ht, Hy, str_eqb_refl.
  now rewrite strict_eq_refl.
Qed.

Lemma heading_matches_paragraph_witness :
  exists h p,
    In h (identifyHeadings
            (groupLinesIntoParagraphs (lines (processTextItems scenarioA))))
    /\ In p (groupLinesIntoParagraphs (lines (processTextItems scenarioA)))
    /\ heading_text h = para_text p.
Proof.
  eexists.
  edestruct (heading_matches_paragraph (lines (processTextItems scenarioA)))
    as (p & Hp & Ht & _); [vm_compute; left; reflexivity|].
  exists p. split; [vm_compute; left; reflexivity|].
  split; [exact Hp|exact Ht].
Defined.

(** ** The attributes of a line *)

Lemma groupItems_derived (sorted : list TextItem) :
  forall (ls : list Line) (cur : list TextItem) (cy : jsnum),
    Forall derivedLine ls ->
    Forall derivedLine (groupItems sorted ls cur cy).
Proof.
  assert (Hpush : forall ls cy cur,
             Forall derivedLine ls -> Forall derivedLine (pushLine ls cy cur)).
  { intros ls cy [|a cur] H; [exact H|]. unfold pushLine.
    apply Forall_app. split; [exact H|].
    constructor; [|constructor]. repeat split. }
  induction sorted as [|item rest IH]; intros ls cur cy H; simpl.
  - now apply Hpush.
  - destruct (sameLine cy item); apply IH; [exact H|now apply Hpush].
Qed.

Lemma Math_max_numeric (l : list jsnum) :
  l <> [] -> Forall (fun v => exists q, v = Num q) l ->
  exists m, Math_max l = Num m /\ In (Num m) l
            /\ Forall (fun v => exists q, v = Num q /\ (q <= m)%Q) l.
Proof.
  induction l as [|a l IH]; intros Hne Hall; [congruence|].
  apply Forall_cons in Hall as [[p ->] Hall].
  destruct l as [|b l].
  - exists p. simpl. split; [reflexivity|]. split; [now left|].
    constructor; [|constructor]. exists p. split; [reflexivity|lra].
  - destruct (IH ltac:(discriminate) Hall) as (m & Hm & Hin & Hle).
    change (Math_max (Num p :: b :: l))
      with (match toNumber (Num p), toNumber (Math_max (b :: l)) with
            | Some p0, Some q => Num (if Qlt_bool p0 q then q else p0)
            | _, _ => NaN
            end).
    rewrite Hm. cbn [toNumber].
    destruct (Qlt_bool p m) eqn:E.
    + apply Qlt_bool_iff in E. exists m. split; [reflexivity|].
      split; [now right|]. constructor; [|exact Hle].
      exists p. split; [reflexivity|lra].
    + assert (Hmp : (m <= p)%Q).
      { destruct (Qlt_le_dec p m) as [Hlt|Hge]; [|exact Hge].
        apply Qlt_bool_iff in Hlt. congruence. }
      exists p. split; [reflexivity|]. split; [now left|].
      constructor; [exists p; split; [reflexivity|lra]|].
      eapply Forall_impl; [exact Hle|]. simpl.
      intros v (q & -> & Hq). exists q. split; [reflexivity|lra].
Qed.

Lemma Math_max_NaN (l : list jsnum) (v : jsnum) :
  In v l -> toNumber v = None -> Math_max l = NaN.
Proof.
  induction l as [|a l IH]; intros Hin Hv; [destruct Hin|].
  destruct l as [|b l].
  - destruct Hin as [->|[]]. simpl. now rewrite Hv.
  - change (Math_max (a :: b :: l))
      with (match toNumber a, toNumber (Math_max (b :: l)) with
            | Some p0, Some q => Num (if Qlt_bool p0 q then q else p0)
            | _, _ => NaN
            end).
    destruct Hin as [->|Hin]; [now rewrite Hv|].
    rewrite (IH Hin Hv). simpl. now destruct (toNumber a).
Qed.

(** X23: the font size of a line.  When all its items have a numeric
    font size, it is the largest of them, attained by one of the items;
    as soon as one item has none, the line's font size is [NaN]. *)
Theorem line_font_size (items : list TextItem) (l : Line) :
  In l (lines (processTextItems items)) ->
  (Forall numericSize (line_items l) ->
   exists m it,
     line_fontSize l = Num m /\ In it (line_items l)
     /\ item_fontSize it = Num m
     /\ Forall (fun i => exists q, item_fontSize i = Num q /\ (q <= m)%Q)
               (line_items l))
  /\ (forall it, In it (line_items l) -> toNumber (item_fontSize it) = None ->
                 line_fontSize l = NaN).
Proof.
  intros Hl.
  assert (Hd : derivedLine l).
  { rewrite processTextItems_lines in Hl.
    pose proof (groupItems_derived (Array_sort compareItems items) [] [] Null
                  (List.Forall_nil _)) as H.
    rewrite List.Forall_forall in H. now apply H. }
  destruct Hd as (_ & Hfont & _).
  destruct (processTextItems_lineInv items l Hl) as [(lst & Hlast & _) _].
  split.
  - intros Hnum.
    destruct (Math_max_numeric (List.map item_fontSize (line_items l)))
      as (m & Hm & Hin & Hle).
    + intros Hnil. apply map_eq_nil in Hnil. rewrite Hnil in Hlast.
      discriminate.
    + rewrite List.Forall_forall in Hnum |- *. intros v Hv.
      apply in_map_iff in Hv as (it & <- & Hit). now apply Hnum.
    + apply in_map_iff in Hin as (it & Hit & Hin).
      exists m, it. rewrite Hfont. repeat split; try assumption.
      rewrite List.Forall_forall in Hle |- *. intros i Hi.
      apply Hle. now apply in_map.
  - intros it Hit Hnone. rewrite Hfont.
    apply Math_max_NaN with (item_fontSize it); [now apply in_map|exact Hnone].
Qed.

Lemma line_font_size_witness :
  In driftLine (lines (processTextItems driftItems))
  /\ Forall numericSize (line_items driftLine)
  /\ exists m, line_fontSize driftLine = Num m.
Proof.
  assert (Hin : In driftLine (lines (processTextItems driftItems)))
    by (vm_compute; left; reflexivity).
  assert (Hnum : Forall numericSize (line_items driftLine))
    by (repeat constructor; eexists; reflexivity).
  split; [exact Hin|]. split; [exact Hnum|].
  destruct (line_font_size driftItems driftLine Hin) as [Hmax _].
  destruct (Hmax Hnum) as (m & _ & Hm & _). now exists m.
Defined.

(** ** Global replacement *)

(** The result of a global replacement is made of characters of the
    input and of the replacement. *)
Lemma replace_from_Forall (P : char -> Prop) (r : regex) (repl : jsstring) :
  Forall P repl ->
  forall (fuel p : nat) (suffix : jsstring),
    Forall P suffix -> Forall P (replace_from fuel r repl p suffix).
Proof.
  intros Hrepl. induction fuel as [|fuel IH]; intros p suffix Hs; [exact Hs|].
  cbn [replace_from]. destruct (search r p suffix) as [m|]; [|exact Hs].
  assert (Hb : Forall P (firstn (m_index m - p) suffix))
    by now apply Forall_take.
  assert (Ha : Forall P (skipn (m_end m - p) suffix))
    by now apply Forall_drop.
  destruct (m_end m =? m_index m)%nat.
  - destruct (skipn (m_end m - p) suffix) as [|c t].
    + apply Forall_app. now split.
    + apply Forall_cons in Ha as [Hc Ht].
      apply Forall_app. split; [exact Hb|].
      apply Forall_app. split; [exact Hrepl|].
      constructor; [exact Hc|now apply IH].
  - apply Forall_app. split; [exact Hb|].
    apply Forall_app. split; [exact Hrepl|now apply IH].
Qed.

Lemma search_chr (f : char -> bool) (p : nat) (s : jsstring) :
  search (Chr f) p s
  = match s with
    | [] => None
    | c :: t => if f c then Some (mkMatch p (S p) None)
                else search (Chr f) (S p) t
    end.
Proof.
  destruct s as [|c t]; [reflexivity|].
  cbn [search]. unfold match_at. cbn. now destruct (f c).
Qed.

Section ReplaceChr.
Variables (f : char -> bool) (repl : jsstring).

Lemma search_chr_split (s : jsstring) :
  forall p,
    match search (Chr f) p s with
    | None => flat_map (fun c => if f c then repl else [c]) s = s
    | Some m =>
        exists k, m_index m = (p + k)%nat /\ m_end m = S (p + k)
                  /\ (k < length s)%nat
                  /\ flat_map (fun c => if f c then repl else [c]) s
                     = firstn k s ++ repl
                       ++ flat_map (fun c => if f c then repl else [c])
                                   (skipn (S k) s)
    end.
Proof.
  induction s as [|c t IH]; intros p; rewrite search_chr; [reflexivity|].
  destruct (f c) eqn:E.
  - exists 0%nat. cbn [flat_map firstn skipn m_index m_end length app].
    rewrite E. repeat split; lia.
  - specialize (IH (S p)). destruct (search (Chr f) (S p) t) as [m|].
    + destruct IH as (k & Hi & He & Hk & Hflat). exists (S k).
      cbn [flat_map firstn skipn length]. rewrite E, Hflat.
      repeat split; simpl; lia.
    + cbn [flat_map]. rewrite E, IH. reflexivity.
Qed.

(** Replacing a character class globally is a character-wise map. *)
Lemma replace_from_chr (fuel : nat) :
  forall (p : nat) (s : jsstring),
    (length s < fuel)%nat ->
    replace_from fuel (Chr f) repl p s
    = flat_map (fun c => if f c then repl else [c]) s.
Proof.
  induction fuel as [|fuel IH]; intros p s Hlen; [lia|].
  cbn [replace_from]. pose proof (search_chr_split s p) as H.
  destruct (search (Chr f) p s) as [m|]; [|now rewrite H].
  destruct H as (k & Hi & He & Hk & Hflat).
  rewrite Hi, He.
  replace (S (p + k) =? p + k)%nat with false
    by (symmetry; apply Nat.eqb_neq; lia).
  replace (p + k - p)%nat with k by lia.
  replace (S (p + k) - p)%nat with (S k) by lia.
  rewrite IH; [now rewrite Hflat|].
  rewrite length_skipn. lia.
Qed.

Lemma replace_all_chr (s : jsstring) :
  replace_all (Chr f) repl s
  = flat_map (fun c => if f c then repl else [c]) s.
Proof. unfold replace_all. apply replace_from_chr. lia. Qed.
End ReplaceChr.

Lemma replace_all_Forall (P : char -> Prop) (r : regex)
    (repl s : jsstring) :
  Forall P repl -> Forall P s -> Forall P (replace_all r repl s).
Proof. intros Hr Hs. unfold replace_all. now apply replace_from_Forall. Qed.

(** X24: a sanitized file name is made of ASCII letters, digits, dots,
    hyphens and underscores only, whatever the input. *)
Theorem sanitized_filename_is_safe (filename : jsstring) :
  Forall safeChar (sanitizeFilename filename).
Proof.
  unfold sanitizeFilename.
  assert (Hu : Forall safeChar [underscore])
    by (constructor; [now right|constructor]).
  apply replace_all_Forall; [constructor|].
  apply replace_all_Forall; [exact Hu|].
  rewrite replace_all_chr. rewrite List.Forall_forall. intros c Hc.
  apply in_flat_map in Hc as (d & _ & Hc).
  destruct (filenameChar d) eqn:E; simpl in Hc.
  - destruct Hc as [<-|[]]. now left.
  - destruct Hc as [<-|[]]. now right.
Qed.

(** X25: escaping for the YAML header works character by character: a
    double quote becomes backslash-quote, a line feed becomes
    backslash-n, everything else is kept; the result holds no line feed.
    A backslash of the input is kept as it is. *)
Theorem yaml_escape_characterwise (text : jsstring) :
  escapeYaml text = flat_map yamlEscape text
  /\ ~ In 10%N (escapeYaml text).
Proof.
  assert (E : escapeYaml text = flat_map yamlEscape text).
  { unfold escapeYaml. rewrite !replace_all_chr.
    induction text as [|c t IH]; [reflexivity|].
    cbn [flat_map]. rewrite flat_map_app, IH. f_equal.
    unfold yamlEscape. destruct (N.eqb 34 c) eqn:Eq.
    - reflexivity.
    - cbn [flat_map app]. destruct (N.eqb 10 c); reflexivity. }
  split; [exact E|]. intros Hin. rewrite E in Hin.
  apply in_flat_map in Hin as (c & _ & Hc). unfold yamlEscape in Hc.
  destruct (N.eqb 34 c); [destruct Hc as [H|[H|[]]]; discriminate|].
  destruct (N.eqb 10 c) eqn:Enl; [destruct Hc as [H|[H|[]]]; discriminate|].
  destruct Hc as [Hc|[]]. subst c. now rewrite N.eqb_refl in Enl.
Qed.
